(** * Sonetto depth-1 GTP front end (sensei_depth1_gtp_main.cpp)

    A shallow embedding of the line-oriented command loop of the depth-1
    Othello engine: the response formatters, the colour and coordinate
    codecs, the game state with its perspective-relative board, the
    one-ply move selection loop and the command dispatcher.

    The board library (board/board.h, board/get_moves.h, board/get_flip.h)
    and the pattern evaluator (evaluatedepthone/pattern_evaluator.h) are
    included by the program but are not part of the translated file; they
    are taken as interfaces ([BoardLib], [EvalLib]). *)

From Stdlib Require Import ZArith String Ascii List Sorted Lia Bool.
From Stdlib Require Import DecimalString DecimalPos.
Import ListNotations.
Local Open Scope string_scope.
Local Open Scope Z_scope.

(** ** Machine integers *)

(** [BitPattern] is a 64-bit unsigned word, [int] a 32-bit signed one. *)
Definition wrap64 (z : Z) : Z := z mod 2 ^ 64.

Definition wrap32s (z : Z) : Z := (z + 2 ^ 31) mod 2 ^ 32 - 2 ^ 31.

Definition INT_MAX : Z := 2147483647.

(** ** Characters and strings *)

Definition code (c : ascii) : Z := Z.of_N (N_of_ascii c).

Definition chr (z : Z) : ascii := ascii_of_N (Z.to_N (z mod 256)).

(** [tolower], [isdigit] and [isspace] of the "C" locale. *)
Definition tolower (c : ascii) : ascii :=
  if (code "A"%char <=? code c) && (code c <=? code "Z"%char) then chr (code c + 32) else c.

Definition isdigit (c : ascii) : bool :=
  (code "0"%char <=? code c) && (code c <=? code "9"%char).

Definition isspace (c : ascii) : bool :=
  (code c =? 32) || ((9 <=? code c) && (code c <=? 13)).

Fixpoint lower (s : string) : string :=
  match s with
  | EmptyString => EmptyString
  | String c t => String (tolower c) (lower t)
  end.

Definition is_empty (s : string) : bool :=
  match s with EmptyString => true | _ => false end.

Definition LF : ascii := chr 10.
Definition nl2 : string := String LF (String LF "").

(** [std::to_string(int)]. *)
Definition to_string (z : Z) : string := NilZero.string_of_int (Z.to_int z).

(** ** Response formatting *)

Definition Ok (id : Z) (payload : string) : string :=
  if id >=? 0 then
    if is_empty payload then "= " ++ to_string id ++ nl2
    else "= " ++ to_string id ++ " " ++ payload ++ nl2
  else
    if is_empty payload then "=" ++ nl2
    else "= " ++ payload ++ nl2.

Definition Err (id : Z) (payload : string) : string :=
  if id >=? 0 then "? " ++ to_string id ++ " " ++ payload ++ nl2
  else "? " ++ payload ++ nl2.

(** ** Colour and coordinate codecs *)

(** [ParseColor]: [Some is_black] when the function returns true. *)
Definition ParseColor (s : string) : option bool :=
  let t := lower s in
  if ((t =? "b") || (t =? "black"))%string then Some true
  else if ((t =? "w") || (t =? "white"))%string then Some false
  else None.

(** [ParseCoord s out_sq is_pass]: [None] when the function returns false,
    otherwise the values of [*out_sq] and [*is_pass] on return ([*out_sq] is
    left as it was on a pass). *)
Definition ParseCoord (s : string) (out_sq : Z) (is_pass : bool)
  : option (Z * bool) :=
  if ((s =? "PASS") || (s =? "pass"))%string then Some (out_sq, true)
  else
    match s with
    | String s0 (String s1 EmptyString) =>
        let file := tolower s0 in
        let rank := s1 in
        if (code file <? code "a"%char) || (code file >? code "h"%char) then None
        else if (code rank <? code "1"%char) || (code rank >? code "8"%char) then None
        else
          let x := code file - code "a"%char in
          let y := code rank - code "1"%char in
          Some (y * 8 + x, false)
    | _ => None
    end.

(** [SqToCoord]: [%] and [/] of C++ truncate, as [Z.rem] and [Z.quot]. *)
Definition SqToCoord (sq : Z) : string :=
  let x := Z.rem sq 8 in
  let y := Z.quot sq 8 in
  String (chr (code "a"%char + x)) (String (chr (code "1"%char + y)) EmptyString).

(** ** Boards and game states *)

Record Board : Type := mkBoard { Player : Z; Opponent : Z }.

Record GameState : Type := mkState { board : Board; stm_is_black : bool }.

(** The board library, as the program consumes it.  Bit patterns are
    64-bit unsigned values, so the result of [GetMoves] is in range. *)
Class BoardLib : Type := {
  StartBoard : Board;                      (* Board() *)
  GetMoves : Z -> Z -> Z;                  (* GetMoves(player, opponent) *)
  GetFlip : Z -> Z -> Z -> Z;              (* GetFlip(move, player, opponent) *)
  NewPlayer : Z -> Z -> Z;                 (* NewPlayer(flip, opponent) *)
  NewOpponent : Z -> Z -> Z;               (* NewOpponent(flip, player) *)
  GetMoves_range : forall p o, 0 <= GetMoves p o < 2 ^ 64
}.

(** The evaluator: the table read by [LoadEvals] and the score
    [(int)pe.Evaluate()] of a [PatternEvaluator] built on that table and
    set up on a position. *)
Class EvalLib : Type := {
  EvalType : Type;
  LoadEvals : string -> list EvalType;
  Evaluate : list EvalType -> Z -> Z -> Z
}.

(** [__builtin_ctzll] (undefined on 0, where this model answers 64) and
    [__builtin_popcountll]. *)
Fixpoint ctz_pos (p : positive) : Z :=
  match p with
  | xO q => 1 + ctz_pos q
  | _ => 0
  end.

Definition ctzll (x : Z) : Z :=
  match x with
  | Zpos p => ctz_pos p
  | _ => 64
  end.

Fixpoint popcount_pos (p : positive) : Z :=
  match p with
  | xH => 1
  | xO q => popcount_pos q
  | xI q => 1 + popcount_pos q
  end.

Definition popcountll (x : Z) : Z :=
  match x with
  | Zpos p => popcount_pos p
  | _ => 0
  end.

(** ** Tokens of a line *)

(** [s.find_first_not_of(" \t\r\n")] followed by [substr]: the suffix from
    the first other character, [None] for [npos]. *)
Definition is_blank (c : ascii) : bool :=
  (code c =? 32) || (code c =? 9) || (code c =? 13) || (code c =? 10).

Fixpoint skip_blank (s : string) : option string :=
  match s with
  | EmptyString => None
  | String c t => if is_blank c then skip_blank t else Some s
  end.

(** [stream >> tok]: skip white space, then read up to the next white
    space; the token and the unread rest of the stream. *)
Fixpoint skip_space (s : string) : string :=
  match s with
  | EmptyString => EmptyString
  | String c t => if isspace c then skip_space t else s
  end.

Fixpoint take_word (s : string) : string * string :=
  match s with
  | EmptyString => (EmptyString, EmptyString)
  | String c t =>
      if isspace c then (EmptyString, s)
      else let (w, r) := take_word t in (String c w, r)
  end.

Definition read_token (s : string) : string * string := take_word (skip_space s).

(** [getline(stream, rest)]: up to the next line feed. *)
Fixpoint getline (s : string) : string :=
  match s with
  | EmptyString => EmptyString
  | String c t => if code c =? 10 then EmptyString else String c (getline t)
  end.

Fixpoint all_of (f : ascii -> bool) (s : string) : bool :=
  match s with
  | EmptyString => true
  | String c t => f c && all_of f t
  end.

(** [std::stoi] on a token of decimal digits: the value, or [None] where it
    throws [std::out_of_range]. *)
Fixpoint digits_value (acc : Z) (s : string) : Z :=
  match s with
  | EmptyString => acc
  | String c t => digits_value (acc * 10 + (code c - code "0"%char)) t
  end.

Definition stoi (tok : string) : option Z :=
  let v := digits_value 0 tok in
  if v <=? INT_MAX then Some v else None.

(** ** The result of handling one line *)

(** What the body of the request loop does with a line: write [out] and go
    on to the next line ([continue], or the end of the body), write [out]
    and leave the loop ([break]), let the exception of [std::stoi] escape
    [main], or run into behaviour the language leaves undefined (a shift
    count outside 0..63).  [OutOfFuel] is the selection loop still running
    after the iteration bound of the model. *)
Inductive Outcome : Type :=
| Continue (out : string) (st : GameState)
| Break (out : string) (st : GameState)
| Throw
| Undefined
| OutOfFuel.

(** How [main] ends: end of input, [quit], the uncaught exception, or one
    of the two other outcomes above. *)
Inductive Exit : Type :=
| Eof (st : GameState)
| Quit (st : GameState)
| Aborted
| ExitUndefined
| ExitOutOfFuel.

(** The optional numeric id at the head of the trimmed line: the id and the
    command line that is left, [None] when [std::stoi] throws. *)
Definition extract_id (cmdline : string) : option (Z * string) :=
  let (tok, ss) := read_token cmdline in
  let all_digits := negb (is_empty tok) && all_of isdigit tok in
  if all_digits then
    match stoi tok with
    | None => None
    | Some id =>
        let rest := getline ss in
        match skip_blank rest with
        | Some c => Some (id, c)
        | None => Some (id, EmptyString)
        end
    end
  else Some (-1, cmdline).

Section Engine.

Context {BL : BoardLib} {EL : EvalLib}.

(** Modelled from the spec: [Board::PlayMove] of board/board.h, which is not
    among the sources at hand.  The position after a move is the pair
    the selection loop evaluates, [NewPlayer(flip, opponent)] about to act
    against [NewOpponent(flip, player)] (spec 4.2 and 4.4, step 2). *)
Definition PlayMove (b : Board) (flip : Z) : Board :=
  mkBoard (NewPlayer flip (Opponent b)) (NewOpponent flip (Player b)).

(** Modelled from the spec: [IsGameOver] of the board library, which is not
    among the sources at hand: true iff neither the side to move nor the
    side that would move after a pass has a legal move (spec 4.2). *)
Definition IsGameOver (b : Board) : bool :=
  (GetMoves (Player b) (Opponent b) =? 0)
  && (GetMoves (Opponent b) (Player b) =? 0).

Definition Reset (st : GameState) : GameState := mkState StartBoard true.

Definition ApplyPass (st : GameState) : GameState :=
  mkState (PlayMove (board st) 0) (negb (stm_is_black st)).

(** [ApplyMove]: the returned flag and the state on return; [None] where
    the shift [moves >> (int)mv] has a count outside 0..63.  A [Square]
    holds 0..63 unchanged; the conversion of -1 to it is outside that range
    whatever the width and signedness of the type. *)
Definition ApplyMove (st : GameState) (mv : Z) : option (bool * GameState) :=
  let moves := GetMoves (Player (board st)) (Opponent (board st)) in
  if (0 <=? mv) && (mv <? 64) then
    if Z.land (Z.shiftr moves mv) 1 =? 0 then Some (false, st)
    else
      let flip := GetFlip mv (Player (board st)) (Opponent (board st)) in
      Some (true, mkState (PlayMove (board st) flip) (negb (stm_is_black st)))
  else None.

Definition IsOver (st : GameState) : bool := IsGameOver (board st).

Definition CountDiscsAbs (st : GameState) : Z * Z :=
  let player := Player (board st) in
  let opp := Opponent (board st) in
  let black := if stm_is_black st then player else opp in
  let white := if stm_is_black st then opp else player in
  (popcountll black, popcountll white).

(** The score the selection loop gives to a move: the evaluation of the
    position after it, negated in [int]. *)
Definition move_score (evals : list EvalType) (b : Board) (mv : Z) : Z :=
  let flip := GetFlip mv (Player b) (Opponent b) in
  let next_player := NewPlayer flip (Opponent b) in
  let next_opp := NewOpponent flip (Player b) in
  let score := Evaluate evals next_player next_opp in
  wrap32s (- score).

(** The [while (rem)] loop of [genmove]; every iteration clears one bit of
    [rem], and [fuel] bounds the number of iterations. *)
Fixpoint select_loop (fuel : nat) (evals : list EvalType) (b : Board)
    (rem : Z) (best_move best_score : Z) : option (Z * Z) :=
  if rem =? 0 then Some (best_move, best_score)
  else
    match fuel with
    | O => None
    | S fuel' =>
        let sq_bb := Z.land rem (wrap64 (0 - rem)) in
        let rem := Z.lxor rem sq_bb in
        let mv := ctzll sq_bb in
        let score := move_score evals b mv in
        if score >? best_score
        then select_loop fuel' evals b rem mv score
        else select_loop fuel' evals b rem best_move best_score
    end.

Definition play (st : GameState) (id : Z) (iss : string) : Outcome :=
  let (color_s, iss) := read_token iss in
  let (coord_s, iss) := read_token iss in
  match ParseColor color_s with
  | None => Continue (Err id "illegal color") st
  | Some is_black =>
      match ParseCoord coord_s 0 false with
      | None => Continue (Err id "illegal move") st
      | Some (sq, is_pass) =>
          if negb (Bool.eqb is_black (stm_is_black st))
          then Continue (Err id "wrong color to play") st
          else if is_pass then Continue (Ok id "") (ApplyPass st)
          else
            match ApplyMove st sq with
            | None => Undefined
            | Some (false, _) => Continue (Err id "illegal move") st
            | Some (true, st') => Continue (Ok id "") st'
            end
      end
  end.

Definition genmove (evals : list EvalType) (st : GameState) (id : Z)
    (iss : string) : Outcome :=
  let (color_s, iss) := read_token iss in
  match ParseColor color_s with
  | None => Continue (Err id "illegal color") st
  | Some is_black =>
      match evals with
      | [] => Continue (Err id "evals not loaded") st
      | _ :: _ =>
          if negb (Bool.eqb is_black (stm_is_black st))
          then Continue (Err id "wrong color to play") st
          else
            let moves := GetMoves (Player (board st)) (Opponent (board st)) in
            if moves =? 0 then Continue (Ok id "PASS") (ApplyPass st)
            else
              match select_loop 64 evals (board st) moves (-1) (-1000000000) with
              | None => OutOfFuel
              | Some (best_move, _) =>
                  match ApplyMove st best_move with
                  | None => Undefined
                  | Some (_, st') => Continue (Ok id (SqToCoord best_move)) st'
                  end
              end
      end
  end.

Definition final_score (st : GameState) (id : Z) : Outcome :=
  if negb (IsOver st) then Continue (Err id "game not over") st
  else
    let (nb, nw) := CountDiscsAbs st in
    let diff := nb - nw in
    let r :=
      if diff >? 0 then "B+" ++ to_string diff
      else if diff <? 0 then "W+" ++ to_string (- diff)
      else "0" in
    Continue (Ok id r) st.

(** The handlers, by verb (already in lower case). *)
Definition dispatch (evals : list EvalType) (st : GameState) (id : Z)
    (cmd iss : string) : Outcome :=
  if ((cmd =? "quit") || (cmd =? "exit"))%string then Break (Ok id "") st
  else if (cmd =? "clear_board")%string then Continue (Ok id "") (Reset st)
  else if (cmd =? "play")%string then play st id iss
  else if (cmd =? "genmove")%string then genmove evals st id iss
  else if (cmd =? "final_score")%string then final_score st id
  else Continue (Err id "unknown command") st.

(** The body of the request loop on one line. *)
Definition process_line (evals : list EvalType) (st : GameState)
    (line : string) : Outcome :=
  if is_empty line then Continue "" st
  else
    let cmdline := match skip_blank line with Some c => c | None => line end in
    match extract_id cmdline with
    | None => Throw
    | Some (id, cmdline) =>
        let (cmd, iss) := read_token cmdline in
        if is_empty cmd then Continue "" st
        else dispatch evals st id (lower cmd) iss
    end.

(** The request loop over the lines of the input; the replies written and
    the way the loop ends. *)
Fixpoint request_loop (evals : list EvalType) (st : GameState)
    (lines : list string) : list string * Exit :=
  match lines with
  | [] => ([], Eof st)
  | line :: rest =>
      match process_line evals st line with
      | Continue out st' =>
          let (outs, e) := request_loop evals st' rest in (out :: outs, e)
      | Break out st' => ([out], Quit st')
      | Throw => ([], Aborted)
      | Undefined => ([], ExitUndefined)
      | OutOfFuel => ([], ExitOutOfFuel)
      end
  end.

(** The scan of [argv[1..]] for [--eval <path>]. *)
Fixpoint eval_path_of (args : list string) (eval_path : string) : string :=
  match args with
  | a :: ((v :: rest) as tl) =>
      if (a =? "--eval")%string then eval_path_of rest v
      else eval_path_of tl eval_path
  | _ => eval_path
  end.

(** The table [main] works with: the configured file, else the fallback. *)
Definition startup_evals (args : list string) : list EvalType :=
  let eval_path := eval_path_of args "sensei-engine/pattern_evaluator.dat" in
  let evals := LoadEvals eval_path in
  match evals with
  | [] => LoadEvals "pattern_evaluator.dat"
  | _ => evals
  end.

Definition main (args : list string) (lines : list string)
  : list string * Exit :=
  let evals := startup_evals args in
  let st := Reset (mkState StartBoard true) in
  request_loop evals st lines.

End Engine.

(** ** A reference board library and evaluators

    Concrete instances of the two interfaces, on which the handlers can be
    run: the rules of Othello on the a1 = 0 ... h8 = 63 numbering of the
    front end, and three small evaluators. *)
Module Reference.

Definition on_board (x y : Z) : bool :=
  (0 <=? x) && (x <? 8) && (0 <=? y) && (y <? 8).

(** The discs of [o] bracketed from [(x, y)] in direction [(dx, dy)]. *)
Fixpoint ray (n : nat) (x y dx dy p o acc : Z) : Z :=
  match n with
  | O => 0
  | S n' =>
      let x' := x + dx in
      let y' := y + dy in
      if on_board x' y' then
        let s := y' * 8 + x' in
        if Z.testbit o s then ray n' x' y' dx dy p o (Z.lor acc (Z.shiftl 1 s))
        else if Z.testbit p s then acc
        else 0
      else 0
  end.

Definition directions : list (Z * Z) :=
  [(-1, -1); (0, -1); (1, -1); (-1, 0); (1, 0); (-1, 1); (0, 1); (1, 1)].

Definition captured (sq p o : Z) : Z :=
  fold_left
    (fun acc d => Z.lor acc (ray 7 (sq mod 8) (sq / 8) (fst d) (snd d) p o 0))
    directions 0.

(** The flipped discs together with the square played. *)
Definition get_flip (sq p o : Z) : Z :=
  let c := captured sq p o in
  if c =? 0 then 0 else Z.lor c (Z.shiftl 1 sq).

Definition squares : list Z := map Z.of_nat (seq 0 64).

Definition get_moves (p o : Z) : Z :=
  wrap64
    (fold_left
       (fun acc sq =>
          if negb (Z.testbit (Z.lor p o) sq) && negb (captured sq p o =? 0)
          then Z.lor acc (Z.shiftl 1 sq)
          else acc)
       squares 0).

Definition new_player (flip opponent : Z) : Z := Z.ldiff opponent flip.

Definition new_opponent (flip player : Z) : Z := Z.lor player flip.

(** Black on e4 and d5, white on d4 and e5, black to move. *)
Definition start : Board :=
  mkBoard (Z.lor (Z.shiftl 1 28) (Z.shiftl 1 35))
          (Z.lor (Z.shiftl 1 27) (Z.shiftl 1 36)).

Definition Othello : BoardLib := {|
  StartBoard := start;
  GetMoves := get_moves;
  GetFlip := get_flip;
  NewPlayer := new_player;
  NewOpponent := new_opponent;
  GetMoves_range := fun p o => Z.mod_pos_bound _ (2 ^ 64) eq_refl
|}.

(** The disc difference seen by the side to move, kept within -64..64. *)
Definition disc_difference (p o : Z) : Z :=
  Z.max (-64) (Z.min 64 (popcountll p - popcountll o)).

(** A table of one entry, whatever the file. *)
Definition DiscEval : EvalLib := {|
  EvalType := Z;
  LoadEvals := fun _ => [0];
  Evaluate := fun _ p o => disc_difference p o
|}.

(** No file can be read. *)
Definition NoEval : EvalLib := {|
  EvalType := Z;
  LoadEvals := fun _ => [];
  Evaluate := fun _ p o => disc_difference p o
|}.

(** An evaluator whose every score is 1000000000. *)
Definition SaturatedEval : EvalLib := {|
  EvalType := Z;
  LoadEvals := fun _ => [0];
  Evaluate := fun _ _ _ => 1000000000
|}.

(** The state after [Reset]. *)
Definition opening : GameState := mkState start true.

(** The side to move holds b1 only, the other side a1 only: no move for
    the side to move, c1 for the other. *)
Definition must_pass : GameState := mkState (mkBoard 2 1) true.

(** White to move with one disc on h8 against black's a1, b1 and c1: no
    move for either side. *)
Definition finished : GameState := mkState (mkBoard (Z.shiftl 1 63) 7) false.

End Reference.

(** ** Vocabulary of the properties *)

(** The set bits of a bit pattern, lowest first. *)
Fixpoint bits_pos (p : positive) : list Z :=
  match p with
  | xH => [0]
  | xO q => map Z.succ (bits_pos q)
  | xI q => 0 :: map Z.succ (bits_pos q)
  end.

Definition set_bits (z : Z) : list Z :=
  match z with
  | Zpos p => bits_pos p
  | _ => []
  end.

(** A coordinate token: a file letter of either case and a rank digit. *)
Definition file_letter (c : ascii) : Prop :=
  code "a"%char <= code c <= code "h"%char \/ code "A"%char <= code c <= code "H"%char.

Definition rank_digit (c : ascii) : Prop :=
  code "1"%char <= code c <= code "8"%char.

(** A lower-case coordinate string, "a1" to "h8". *)
Definition lowercase_coordinate (s : string) : Prop :=
  exists f r, s = String f (String r "")
              /\ code "a"%char <= code f <= code "h"%char /\ rank_digit r.

(** The reading of the coordinate parser in which "pass" is recognised in
    any mix of cases. *)
Definition pass_in_any_case (s : string) : Prop :=
  lower s = "pass" -> forall sq p, ParseCoord s sq p = Some (sq, true).

(** A reply that reports an error. *)
Definition is_error (out : string) : Prop := exists id msg, out = Err id msg.

(** The outcome [on] of a request sent with the id [n] is the outcome [o0]
    of the same request sent without id, with [n] written after the "=" or
    "?" of the reply. *)
Definition carries_id (n : Z) (o0 on : Outcome) : Prop :=
  (exists p st',
     o0 = Continue ("=" ++ (if is_empty p then "" else " " ++ p) ++ nl2) st'
     /\ on = Continue ("= " ++ to_string n
                       ++ (if is_empty p then "" else " " ++ p) ++ nl2) st')
  \/ (exists m st',
        o0 = Continue ("? " ++ m ++ nl2) st'
        /\ on = Continue ("? " ++ to_string n ++ " " ++ m ++ nl2) st')
  \/ (exists st',
        o0 = Break ("=" ++ nl2) st'
        /\ on = Break ("= " ++ to_string n ++ nl2) st')
  \/ (o0 = Undefined /\ on = Undefined).

Section EngineVocabulary.

Context {BL : BoardLib} {EL : EvalLib}.

(** The square [sq] is a legal move of the side to move. *)
Definition legal (b : Board) (sq : Z) : Prop :=
  0 <= sq /\ Z.testbit (GetMoves (Player b) (Opponent b)) sq = true.

(** The evaluator's score of the position that results from playing [mv]. *)
Definition score_after (evals : list EvalType) (b : Board) (mv : Z) : Z :=
  let b' := PlayMove b (GetFlip mv (Player b) (Opponent b)) in
  Evaluate evals (Player b') (Opponent b').

(** One iteration of the selection loop, seen on the pair
    [(best_move, best_score)]. *)
Definition consider (evals : list EvalType) (b : Board) (best : Z * Z)
    (mv : Z) : Z * Z :=
  if move_score evals b mv >? snd best then (mv, move_score evals b mv)
  else best.

(** The discs of each colour, whoever is to move. *)
Definition black_discs (st : GameState) : Z :=
  if stm_is_black st then Player (board st) else Opponent (board st).

Definition white_discs (st : GameState) : Z :=
  if stm_is_black st then Opponent (board st) else Player (board st).

(** A reply of [play] or [genmove] that keeps the loop going is an error
    that leaves the state alone, or a success after exactly one pass or
    one move. *)
Definition settled (st : GameState) (id : Z) (out : string)
    (st' : GameState) : Prop :=
  (is_error out /\ st' = st)
  \/ (exists payload, out = Ok id payload)
     /\ stm_is_black st' = negb (stm_is_black st)
     /\ (st' = ApplyPass st \/ exists mv, ApplyMove st mv = Some (true, st')).

(** The head of a request: the id and the verb (in lower case) that
    [process_line] dispatches on, and the arguments left in the stream. *)
Definition request (line : string) (id : Z) (verb iss : string) : Prop :=
  is_empty line = false
  /\ exists cmdline cmd,
       extract_id (match skip_blank line with Some c => c | None => line end)
         = Some (id, cmdline)
       /\ read_token cmdline = (cmd, iss)
       /\ is_empty cmd = false
       /\ verb = lower cmd.

(** The line is answered with the best legal square, which is played: the
    square maximises the negated score of the resulting position, the
    lowest square winning ties. *)
Definition plays_best_move (evals : list EvalType) (st : GameState)
    (line : string) (id : Z) : Prop :=
  exists best st',
    process_line evals st line = Continue (Ok id (SqToCoord best)) st'
    /\ ApplyMove st best = Some (true, st')
    /\ legal (board st) best
    /\ (forall mv, legal (board st) mv ->
          - score_after evals (board st) mv <= - score_after evals (board st) best)
    /\ (forall mv, legal (board st) mv -> mv < best ->
          - score_after evals (board st) mv < - score_after evals (board st) best).

(** The selection loop takes the legal squares one by one in ascending
    order: it computes what a left-to-right scan of the sorted list of
    legal squares computes. *)
Definition scans_ascending (evals : list EvalType) (b : Board) : Prop :=
  let moves := GetMoves (Player b) (Opponent b) in
  (forall bm bs,
     select_loop 64 evals b moves bm bs
     = Some (fold_left (consider evals b) (set_bits moves) (bm, bs)))
  /\ StronglySorted Z.lt (set_bits moves)
  /\ (forall mv, In mv (set_bits moves) <-> legal b mv).

(** Modelled from the spec: what [Board::PlayMove] (not among the sources at
    hand) does on an empty flip mask: "a pass is modeled as flipMask = 0,
    which still performs the perspective swap without changing occupancy"
    (spec 4.2). *)
Definition pass_swaps (b : Board) : Prop :=
  PlayMove b 0 = mkBoard (Opponent b) (Player b).

(** The payload of [final_score] for a disc difference. *)
Definition score_text (diff : Z) (r : string) : Prop :=
  (0 < diff -> r = "B+" ++ to_string diff)
  /\ (diff < 0 -> r = "W+" ++ to_string (- diff))
  /\ (diff = 0 -> r = "0").

(** Neither the configured file nor the fallback gives a table. *)
Definition both_loads_fail (args : list string) : Prop :=
  LoadEvals (eval_path_of args "sensei-engine/pattern_evaluator.dat") = []
  /\ LoadEvals "pattern_evaluator.dat" = [].

(** Every [genmove] line of a session, whatever came before it, is
    answered "evals not loaded" and leaves the state alone. *)
Definition genmove_unavailable (args : list string) : Prop :=
  forall pre line outs st id iss,
    main args pre = (outs, Eof st) ->
    request line id "genmove" iss ->
    main args (pre ++ [line])
    = ((outs ++ [Err id "evals not loaded"])%list, Eof st).

(** The selection loop of [genmove], when the line makes it run, ends on a
    square: some legal move gets a score above the initial -1000000000. *)
Definition selects_a_square (evals : list EvalType) (st : GameState)
    (line : string) : Prop :=
  forall id iss,
    request line id "genmove" iss ->
    ParseColor (fst (read_token iss)) = Some (stm_is_black st) ->
    evals <> [] ->
    GetMoves (Player (board st)) (Opponent (board st)) <> 0 ->
    exists mv, legal (board st) mv
               /\ -1000000000 < move_score evals (board st) mv.

(** Errors keep the state, and every [play] or [genmove] that is not
    rejected with an error is answered with a success after exactly one
    pass or one accepted move, which toggles the side to move once. *)
Definition turn_discipline (evals : list EvalType) (st : GameState)
    (line : string) : Prop :=
  (forall out st',
     process_line evals st line = Continue out st' -> is_error out -> st' = st)
  /\ (forall id verb iss,
        request line id verb iss ->
        verb = "play" \/ verb = "genmove" ->
        (forall msg, process_line evals st line <> Continue (Err id msg) st) ->
        exists payload st',
          process_line evals st line = Continue (Ok id payload) st'
          /\ stm_is_black st' = negb (stm_is_black st)
          /\ (st' = ApplyPass st
              \/ exists mv, ApplyMove st mv = Some (true, st'))).

End EngineVocabulary.

(** * Properties *)

(** ** Characters *)

Lemma code_range (c : ascii) : 0 <= code c < 256.
Proof.
  unfold code. pose proof (N_ascii_bounded c). lia.
Qed.

Lemma chr_code (c : ascii) : chr (code c) = c.
Proof.
  unfold chr. rewrite Z.mod_small by apply code_range.
  unfold code. rewrite N2Z.id. apply ascii_N_embedding.
Qed.

Lemma code_chr (z : Z) : 0 <= z < 256 -> code (chr z) = z.
Proof.
  intros Hz. unfold code, chr. rewrite Z.mod_small by exact Hz.
  rewrite N_ascii_embedding by lia. lia.
Qed.

Lemma code_inj (c d : ascii) : code c = code d -> c = d.
Proof.
  intros H. rewrite <- (chr_code c), <- (chr_code d). now rewrite H.
Qed.

Lemma tolower_lowercase (c : ascii) :
  code "a"%char <= code c -> tolower c = c.
Proof.
  intros H. unfold tolower.
  replace (code c <=? code "Z"%char) with false.
  - now rewrite andb_false_r.
  - symmetry. apply Z.leb_gt. change (code "Z"%char) with 90.
    change (code "a"%char) with 97 in H. lia.
Qed.

Lemma tolower_uppercase (c : ascii) :
  code "A"%char <= code c <= code "Z"%char -> code (tolower c) = code c + 32.
Proof.
  intros [H1 H2]. unfold tolower.
  apply Z.leb_le in H1 as ->. pose proof H2 as H2'. apply Z.leb_le in H2 as ->.
  cbn [andb]. change (code "Z"%char) with 90 in H2'.
  pose proof (code_range c). apply code_chr. lia.
Qed.

Lemma tolower_other (c : ascii) :
  code c < code "A"%char \/ code "Z"%char < code c -> tolower c = c.
Proof.
  intros H. unfold tolower.
  destruct (code "A"%char <=? code c) eqn:E1; [|reflexivity].
  destruct (code c <=? code "Z"%char) eqn:E2; [|reflexivity].
  apply Z.leb_le in E1, E2. lia.
Qed.

(** The lower-cased file letter is in a..h exactly for the file letters. *)
Lemma file_letter_tolower (c : ascii) :
  file_letter c <->
  code "a"%char <= code (tolower c) <= code "h"%char.
Proof.
  unfold file_letter.
  change (code "a"%char) with 97. change (code "h"%char) with 104.
  change (code "A"%char) with 65. change (code "H"%char) with 72.
  destruct (Z_lt_le_dec (code c) 65) as [Hlo|Hlo].
  { rewrite tolower_other by (change (code "A"%char) with 65; lia). lia. }
  destruct (Z_lt_le_dec 90 (code c)) as [Hhi|Hhi].
  { rewrite tolower_other by (change (code "Z"%char) with 90; lia). lia. }
  rewrite tolower_uppercase
    by (change (code "A"%char) with 65; change (code "Z"%char) with 90; lia).
  lia.
Qed.

(** ** Replies *)

Lemma Ok_head (id : Z) (payload : string) :
  exists t, Ok id payload = String "="%char t.
Proof.
  unfold Ok. destruct (id >=? 0), (is_empty payload); eexists; reflexivity.
Qed.

Lemma Err_head (id : Z) (msg : string) :
  exists t, Err id msg = String "?"%char t.
Proof.
  unfold Err. destruct (id >=? 0); eexists; reflexivity.
Qed.

Lemma Ok_not_error (id : Z) (payload : string) : ~ is_error (Ok id payload).
Proof.
  intros (id' & msg & H).
  destruct (Ok_head id payload) as [t Ht], (Err_head id' msg) as [u Hu].
  rewrite Ht, Hu in H. discriminate H.
Qed.

Lemma silent_not_error : ~ is_error "".
Proof.
  intros (id' & msg & H). destruct (Err_head id' msg) as [u Hu].
  rewrite Hu in H. discriminate H.
Qed.

Lemma Err_is_error (id : Z) (msg : string) : is_error (Err id msg).
Proof. now exists id, msg. Qed.

(** ** The coordinate codec *)

Lemma two_chars_not_pass (f r : ascii) :
  ((String f (String r "") =? "PASS") || (String f (String r "") =? "pass"))%string
  = false.
Proof.
  apply orb_false_iff; split; apply String.eqb_neq; intros H;
    apply (f_equal String.length) in H; discriminate H.
Qed.

Lemma ParseCoord_two_chars (f r : ascii) (sq : Z) (p : bool) :
  ParseCoord (String f (String r "")) sq p =
  if (code (tolower f) <? code "a"%char) || (code (tolower f) >? code "h"%char)
  then None
  else if (code r <? code "1"%char) || (code r >? code "8"%char) then None
  else Some ((code r - code "1"%char) * 8 + (code (tolower f) - code "a"%char), false).
Proof.
  unfold ParseCoord. rewrite two_chars_not_pass. reflexivity.
Qed.

Lemma in_range_checks (lo hi v : Z) :
  (v <? lo) || (v >? hi) = false <-> lo <= v <= hi.
Proof.
  rewrite orb_false_iff, Z.ltb_ge, Z.gtb_ltb, Z.ltb_ge. tauto.
Qed.

Lemma ParseCoord_letter_digit (f r : ascii) (sq : Z) (p : bool) :
  file_letter f -> rank_digit r ->
  ParseCoord (String f (String r "")) sq p
  = Some ((code r - code "1"%char) * 8 + (code (tolower f) - code "a"%char), false).
Proof.
  intros Hf Hr. rewrite ParseCoord_two_chars.
  apply file_letter_tolower in Hf. apply in_range_checks in Hf as ->.
  apply in_range_checks in Hr as ->. reflexivity.
Qed.

Lemma ParseCoord_two_chars_accepted (f r : ascii) (sq : Z) (p : bool) :
  ParseCoord (String f (String r "")) sq p <> None ->
  file_letter f /\ rank_digit r.
Proof.
  rewrite ParseCoord_two_chars.
  destruct ((code (tolower f) <? code "a"%char) || (code (tolower f) >? code "h"%char))
    eqn:Ef; [congruence|].
  destruct ((code r <? code "1"%char) || (code r >? code "8"%char)) eqn:Er;
    [congruence|].
  intros _. split.
  - apply file_letter_tolower, in_range_checks, Ef.
  - apply in_range_checks, Er.
Qed.

Lemma ParseCoord_pass_literal (s : string) (sq : Z) (p : bool) :
  s = "PASS" \/ s = "pass" -> ParseCoord s sq p = Some (sq, true).
Proof.
  intros [-> | ->]; reflexivity.
Qed.

(** C2.  Parsing a lower-case coordinate "a1" ... "h8" gives a square of
    the board, not a pass, and formatting that square gives the string
    back. *)
Theorem coordinate_roundtrip (s : string) (sq0 : Z) (p0 : bool) :
  lowercase_coordinate s ->
  exists sq, ParseCoord s sq0 p0 = Some (sq, false)
             /\ 0 <= sq < 64
             /\ SqToCoord sq = s.
Proof.
  intros (f & r & -> & Hf & Hr).
  rewrite ParseCoord_letter_digit by (unfold file_letter; auto).
  rewrite tolower_lowercase by apply Hf.
  eexists; split; [reflexivity|].
  unfold rank_digit in Hr.
  change (code "a"%char) with 97 in *. change (code "h"%char) with 104 in *.
  change (code "1"%char) with 49 in *. change (code "8"%char) with 56 in *.
  split; [lia|].
  unfold SqToCoord.
  change (code "a"%char) with 97. change (code "1"%char) with 49.
  replace (Z.rem ((code r - 49) * 8 + (code f - 97)) 8) with (code f - 97).
  2:{ rewrite Z.rem_mod_nonneg by lia.
      rewrite Z.add_comm, Z.mod_add by lia. rewrite Z.mod_small; lia. }
  replace (Z.quot ((code r - 49) * 8 + (code f - 97)) 8) with (code r - 49).
  2:{ rewrite Z.quot_div_nonneg by lia.
      rewrite Z.add_comm, Z.div_add by lia. rewrite Z.div_small; lia. }
  replace (97 + (code f - 97)) with (code f) by lia.
  replace (49 + (code r - 49)) with (code r) by lia.
  now rewrite !chr_code.
Qed.

(** The round trip on "d3". *)
Lemma coordinate_roundtrip_witness :
  lowercase_coordinate "d3"
  /\ exists sq, ParseCoord "d3" 0 false = Some (sq, false)
                /\ 0 <= sq < 64 /\ SqToCoord sq = "d3".
Proof.
  assert (H : lowercase_coordinate "d3").
  { exists "d"%char, "3"%char. repeat split; vm_compute; discriminate. }
  split; [exact H | exact (coordinate_roundtrip "d3" 0 false H)].
Defined.

(** C7, as the specification words it, fails: "Pass" is lower-cased to
    "pass" but is rejected, because the parser compares the token with the
    two literals "PASS" and "pass" only. *)
Lemma mixed_case_pass_rejected : ~ pass_in_any_case "Pass".
Proof.
  intros H. specialize (H eq_refl 0 false). discriminate H.
Qed.

(** C7, amended.  A token is accepted exactly when it is "PASS" or "pass",
    or two characters, a file letter a..h of either case followed by a rank
    digit 1..8; the two literals report a pass and leave the square as it
    was, a coordinate reports the square (rank - '1') * 8 + (file - 'a'). *)
Theorem ParseCoord_accepts (s : string) (sq : Z) (p : bool) :
  (ParseCoord s sq p <> None <->
     s = "PASS" \/ s = "pass"
     \/ exists f r, s = String f (String r "") /\ file_letter f /\ rank_digit r)
  /\ (s = "PASS" \/ s = "pass" -> ParseCoord s sq p = Some (sq, true))
  /\ (forall f r, s = String f (String r "") -> file_letter f -> rank_digit r ->
        ParseCoord s sq p
        = Some ((code r - code "1"%char) * 8
                + (code (tolower f) - code "a"%char), false)).
Proof.
  split; [|split].
  - split.
    + intros H.
      destruct (String.eqb s "PASS") eqn:E1.
      { apply String.eqb_eq in E1. auto. }
      destruct (String.eqb s "pass") eqn:E2.
      { apply String.eqb_eq in E2. auto. }
      right; right.
      destruct s as [|f [|r [|c t]]];
        try (exfalso; apply H; unfold ParseCoord; rewrite ?E1, ?E2; reflexivity).
      exists f, r. split; [reflexivity|].
      now apply (ParseCoord_two_chars_accepted f r sq p).
    + intros [H | [H | (f & r & -> & Hf & Hr)]].
      * rewrite ParseCoord_pass_literal by auto. discriminate.
      * rewrite ParseCoord_pass_literal by auto. discriminate.
      * rewrite ParseCoord_letter_digit by assumption. discriminate.
  - intros H. apply ParseCoord_pass_literal. tauto.
  - intros f r -> Hf Hr. now apply ParseCoord_letter_digit.
Qed.

(** ** Bit patterns: the lowest set bit *)

Lemma double_land (a b : Z) : Z.land (2 * a) (2 * b) = 2 * Z.land a b.
Proof.
  rewrite !(Z.mul_comm 2). change 2 with (2 ^ 1).
  rewrite <- !Z.shiftl_mul_pow2 by lia. symmetry. apply Z.shiftl_land.
Qed.

Lemma double_lxor (a b : Z) : Z.lxor (2 * a) (2 * b) = 2 * Z.lxor a b.
Proof.
  rewrite !(Z.mul_comm 2). change 2 with (2 ^ 1).
  rewrite <- !Z.shiftl_mul_pow2 by lia. symmetry. apply Z.shiftl_lxor.
Qed.

Lemma ctz_pos_nonneg (p : positive) : 0 <= ctz_pos p.
Proof.
  induction p; cbn [ctz_pos]; lia.
Qed.

Lemma pow2_ctz_pos (p : positive) : 0 < 2 ^ ctz_pos p <= Zpos p.
Proof.
  induction p as [q IH|q IH|]; cbn [ctz_pos].
  - rewrite Z.pow_0_r. lia.
  - rewrite Z.pow_add_r by (try apply ctz_pos_nonneg; lia).
    change (2 ^ 1) with 2. lia.
  - rewrite Z.pow_0_r. lia.
Qed.

Lemma pow2_ctz_succ (q : positive) : 2 ^ (1 + ctz_pos q) = 2 * 2 ^ ctz_pos q.
Proof.
  rewrite Z.pow_add_r by (try apply ctz_pos_nonneg; lia). reflexivity.
Qed.

(** [x & -x] keeps the lowest set bit of [x]. *)
Lemma land_opp_lowest (p : positive) :
  Z.land (Zpos p) (- Zpos p) = 2 ^ ctz_pos p.
Proof.
  induction p as [q IH|q IH|]; cbn [ctz_pos].
  - rewrite Z.pow_0_r. apply Z.bits_inj'. intros n Hn.
    rewrite Z.land_spec.
    replace (- Z.pos q~1) with (Z.lnot (2 * Zpos q)) by (unfold Z.lnot; lia).
    rewrite Z.lnot_spec by exact Hn. rewrite Pos2Z.inj_xI.
    destruct (Z.eq_dec n 0) as [->|Hne].
    + now rewrite Z.testbit_odd_0, Z.testbit_even_0.
    + replace n with (Z.succ (n - 1)) by lia.
      rewrite Z.testbit_odd_succ, Z.testbit_even_succ by lia.
      rewrite andb_negb_r. change 1 with (2 * 0 + 1).
      rewrite Z.testbit_odd_succ by lia. now rewrite Z.testbit_0_l.
  - rewrite pow2_ctz_succ, <- IH, Pos2Z.inj_xO.
    replace (- (2 * Z.pos q)) with (2 * - Z.pos q) by lia. apply double_land.
  - reflexivity.
Qed.

Lemma testbit_above (z n : Z) : 0 <= z < 2 ^ 64 -> 64 <= n -> Z.testbit z n = false.
Proof.
  intros Hz Hn. destruct (Z.eq_dec z 0) as [->|Hne]; [apply Z.testbit_0_l|].
  apply Z.bits_above_log2; [lia|].
  assert (Z.log2 z < 64) by (apply Z.log2_lt_pow2; lia). lia.
Qed.

Lemma land_wrap64 (z y : Z) : 0 <= z < 2 ^ 64 -> Z.land z (wrap64 y) = Z.land z y.
Proof.
  intros Hz. apply Z.bits_inj'. intros n Hn. rewrite !Z.land_spec. unfold wrap64.
  destruct (Z_lt_le_dec n 64) as [Hlt|Hge].
  - now rewrite Z.mod_pow2_bits_low.
  - now rewrite testbit_above.
Qed.

(** The source's [rem & (0ULL - rem)]. *)
Lemma lowest_bit (z : Z) :
  0 < z < 2 ^ 64 -> Z.land z (wrap64 (0 - z)) = 2 ^ ctzll z.
Proof.
  intros Hz. rewrite land_wrap64 by lia. destruct z as [|p|p]; try lia.
  cbn [ctzll]. rewrite Z.sub_0_l. apply land_opp_lowest.
Qed.

(** The source's [rem ^= sq_bb]. *)
Lemma clear_lowest_bit (p : positive) :
  Z.lxor (Zpos p) (2 ^ ctz_pos p) = Zpos p - 2 ^ ctz_pos p.
Proof.
  induction p as [q IH|q IH|]; cbn [ctz_pos].
  - reflexivity.
  - rewrite pow2_ctz_succ, Pos2Z.inj_xO, double_lxor, IH. lia.
  - reflexivity.
Qed.

Lemma ctzll_pow2 (k : Z) : 0 <= k -> ctzll (2 ^ k) = k.
Proof.
  revert k. apply natlike_ind; [reflexivity|].
  intros k Hk IH. rewrite Z.pow_succ_r by exact Hk.
  pose proof (Z.pow_pos_nonneg 2 k ltac:(lia) Hk) as Hpos.
  destruct (2 ^ k) as [|p|p]; try lia.
  change (2 * Z.pos p) with (Z.pos p~0). cbn [ctzll ctz_pos] in *. lia.
Qed.

Lemma ctzll_nonneg (z : Z) : 0 <= ctzll z.
Proof.
  destruct z; cbn [ctzll]; try lia. apply ctz_pos_nonneg.
Qed.

(** ** Bit patterns: the list of set bits *)

Lemma set_bits_double (z : Z) : 0 <= z -> set_bits (2 * z) = map Z.succ (set_bits z).
Proof.
  destruct z; intros; try lia; reflexivity.
Qed.

Lemma set_bits_step (z : Z) :
  0 < z -> set_bits z = ctzll z :: set_bits (z - 2 ^ ctzll z).
Proof.
  destruct z as [|p|p]; try lia. intros _. cbn [ctzll].
  induction p as [q IH|q IH|]; cbn [ctz_pos].
  - rewrite Z.pow_0_r. replace (Z.pos q~1 - 1) with (Z.pos q~0) by lia. reflexivity.
  - rewrite pow2_ctz_succ.
    replace (Z.pos q~0 - 2 * 2 ^ ctz_pos q) with (2 * (Z.pos q - 2 ^ ctz_pos q)) by lia.
    rewrite set_bits_double by (pose proof (pow2_ctz_pos q); lia).
    change (set_bits (Z.pos q~0)) with (map Z.succ (set_bits (Z.pos q))).
    rewrite IH. cbn [map]. f_equal. lia.
  - reflexivity.
Qed.

Lemma set_bits_length (n : nat) (z : Z) :
  0 <= z < 2 ^ Z.of_nat n -> (length (set_bits z) <= n)%nat.
Proof.
  revert z. induction n as [|n IH]; intros z Hz.
  - change (2 ^ Z.of_nat 0) with 1 in Hz. replace z with 0 by lia. cbn. lia.
  - rewrite Nat2Z.inj_succ, Z.pow_succ_r in Hz by lia.
    destruct z as [|[q|q|]|p]; cbn [set_bits bits_pos length]; try lia.
    + rewrite length_map. specialize (IH (Zpos q)). cbn [set_bits] in IH. lia.
    + rewrite length_map. specialize (IH (Zpos q)). cbn [set_bits] in IH. lia.
Qed.

Lemma bits_pos_spec (p : positive) (k : Z) :
  In k (bits_pos p) <-> 0 <= k /\ Z.testbit (Zpos p) k = true.
Proof.
  revert k. induction p as [q IH|q IH|]; intros k; cbn [bits_pos].
  - rewrite Pos2Z.inj_xI. cbn [In]. rewrite in_map_iff. split.
    + intros [<-|(j & <- & Hj)].
      * now rewrite Z.testbit_odd_0.
      * apply IH in Hj. rewrite Z.testbit_odd_succ by lia. split; [lia|tauto].
    + intros [Hk Hb]. destruct (Z.eq_dec k 0) as [->|Hne]; [now left|right].
      exists (k - 1). split; [lia|]. apply IH.
      replace k with (Z.succ (k - 1)) in Hb by lia.
      rewrite Z.testbit_odd_succ in Hb by lia. split; [lia|exact Hb].
  - rewrite Pos2Z.inj_xO, in_map_iff. split.
    + intros (j & <- & Hj). apply IH in Hj.
      rewrite Z.testbit_even_succ by lia. split; [lia|tauto].
    + intros [Hk Hb]. destruct (Z.eq_dec k 0) as [->|Hne].
      { now rewrite Z.testbit_even_0 in Hb. }
      exists (k - 1). split; [lia|]. apply IH.
      replace k with (Z.succ (k - 1)) in Hb by lia.
      rewrite Z.testbit_even_succ in Hb by lia. split; [lia|exact Hb].
  - cbn [In]. split.
    + intros [<-|[]]. now split.
    + intros [Hk Hb]. destruct (Z.eq_dec k 0) as [->|Hne]; [now left|].
      replace k with (Z.succ (k - 1)) in Hb by lia. change 1 with (2 * 0 + 1) in Hb.
      rewrite Z.testbit_odd_succ, Z.testbit_0_l in Hb by lia. discriminate Hb.
Qed.

Lemma set_bits_spec (z k : Z) :
  0 <= z -> In k (set_bits z) <-> 0 <= k /\ Z.testbit z k = true.
Proof.
  intros Hz. destruct z as [|p|p]; try lia.
  - cbn [set_bits In]. rewrite Z.testbit_0_l. intuition discriminate.
  - apply bits_pos_spec.
Qed.

Lemma sorted_map_succ (l : list Z) :
  StronglySorted Z.lt l -> StronglySorted Z.lt (map Z.succ l).
Proof.
  induction 1 as [|x l Hs IH Hx]; cbn [map]; constructor; [exact IH|].
  apply Forall_forall. intros y Hy. apply in_map_iff in Hy as (j & <- & Hj).
  rewrite Forall_forall in Hx. specialize (Hx j Hj). lia.
Qed.

Lemma bits_pos_sorted (p : positive) : StronglySorted Z.lt (bits_pos p).
Proof.
  induction p as [q IH|q IH|]; cbn [bits_pos].
  - constructor; [now apply sorted_map_succ|].
    apply Forall_forall. intros y Hy. apply in_map_iff in Hy as (j & <- & Hj).
    apply bits_pos_spec in Hj. lia.
  - now apply sorted_map_succ.
  - repeat constructor.
Qed.

(** The set bits are listed in ascending order. *)
Lemma set_bits_sorted (z : Z) : StronglySorted Z.lt (set_bits z).
Proof.
  destruct z; cbn [set_bits]; try constructor. apply bits_pos_sorted.
Qed.

Lemma sorted_after (l1 l2 : list Z) (x y : Z) :
  StronglySorted Z.lt (l1 ++ x :: l2) -> In y l2 -> x < y.
Proof.
  induction l1 as [|a l1 IH]; cbn [app]; intros Hs Hy.
  - apply StronglySorted_inv in Hs as [_ Hall].
    rewrite Forall_forall in Hall. now apply Hall.
  - apply StronglySorted_inv in Hs as [Hs _]. now apply IH.
Qed.

(** ** The selection loop *)

Lemma wrap32s_exact (z : Z) : - 2 ^ 31 <= z < 2 ^ 31 -> wrap32s z = z.
Proof.
  intros Hz. unfold wrap32s. rewrite Z.mod_small; lia.
Qed.

Section Selection.

Context {BL : BoardLib} {EL : EvalLib}.
Variable evals : list EvalType.
Variable b : Board.

Lemma select_loop_done (fuel : nat) (bm bs : Z) :
  select_loop fuel evals b 0 bm bs = Some (bm, bs).
Proof. destruct fuel; reflexivity. Qed.

Lemma select_loop_step (fuel : nat) (rem bm bs : Z) :
  0 < rem < 2 ^ 64 ->
  select_loop (S fuel) evals b rem bm bs =
  select_loop fuel evals b (rem - 2 ^ ctzll rem)
    (fst (consider evals b (bm, bs) (ctzll rem)))
    (snd (consider evals b (bm, bs) (ctzll rem))).
Proof.
  intros Hrem. cbn [select_loop].
  replace (rem =? 0) with false by (symmetry; apply Z.eqb_neq; lia).
  rewrite lowest_bit by exact Hrem.
  rewrite ctzll_pow2 by apply ctzll_nonneg.
  replace (Z.lxor rem (2 ^ ctzll rem)) with (rem - 2 ^ ctzll rem).
  2:{ destruct rem as [|p|p]; try lia. cbn [ctzll]. symmetry. apply clear_lowest_bit. }
  unfold consider. cbn [snd].
  destruct (move_score evals b (ctzll rem) >? bs); reflexivity.
Qed.

(** The loop visits the set bits of [rem] in ascending order, and a fuel
    of at least their number lets it finish. *)
Lemma select_loop_fold (fuel : nat) (rem bm bs : Z) :
  0 <= rem < 2 ^ 64 ->
  (length (set_bits rem) <= fuel)%nat ->
  select_loop fuel evals b rem bm bs
  = Some (fold_left (consider evals b) (set_bits rem) (bm, bs)).
Proof.
  revert rem bm bs. induction fuel as [|fuel IH]; intros rem bm bs Hrem Hlen.
  - destruct (Z.eq_dec rem 0) as [->|Hne]; [reflexivity|].
    rewrite set_bits_step in Hlen by lia. cbn [length] in Hlen. lia.
  - destruct (Z.eq_dec rem 0) as [->|Hne]; [reflexivity|].
    rewrite select_loop_step by lia.
    assert (Hlow : 0 < 2 ^ ctzll rem <= rem).
    { destruct rem as [|p|p]; try lia. apply pow2_ctz_pos. }
    rewrite (set_bits_step rem) in * by lia. cbn [length] in Hlen.
    cbn [fold_left]. rewrite IH by lia.
    now destruct (consider evals b (bm, bs) (ctzll rem)).
Qed.

Lemma select_loop_64 (rem bm bs : Z) :
  0 <= rem < 2 ^ 64 ->
  select_loop 64 evals b rem bm bs
  = Some (fold_left (consider evals b) (set_bits rem) (bm, bs)).
Proof.
  intros Hrem. apply select_loop_fold; [exact Hrem|].
  now apply set_bits_length.
Qed.

(** What the scan leaves in [(best_move, best_score)]: either nothing beat
    the initial score, or the first of the highest-scoring elements. *)
Lemma fold_consider_cases (l : list Z) (bm0 bs0 : Z) :
  let r := fold_left (consider evals b) l (bm0, bs0) in
  (r = (bm0, bs0) /\ forall x, In x l -> move_score evals b x <= bs0)
  \/ (exists l1 l2,
        l = (l1 ++ fst r :: l2)%list
        /\ snd r = move_score evals b (fst r)
        /\ bs0 < snd r
        /\ (forall x, In x l1 -> move_score evals b x < snd r)
        /\ (forall x, In x l2 -> move_score evals b x <= snd r)).
Proof.
  cbv zeta. revert bm0 bs0.
  induction l as [|x l IH]; intros bm0 bs0; cbn [fold_left].
  - left. split; [reflexivity|]. intros y [].
  - destruct (move_score evals b x >? bs0) eqn:E.
    + replace (consider evals b (bm0, bs0) x) with (x, move_score evals b x)
        by (unfold consider; cbn [snd]; now rewrite E).
      apply Z.gtb_lt in E. right.
      destruct (IH x (move_score evals b x))
        as [[Hr Hall]|(l1 & l2 & Hl & Hs & Hlt & H1 & H2)].
      * rewrite Hr. cbn [fst snd]. exists [], l. repeat split; auto.
        intros y [].
      * exists (x :: l1), l2. repeat split; auto.
        -- cbn [app]. now f_equal.
        -- lia.
        -- intros y [<-|Hy]; [exact Hlt|now apply H1].
    + replace (consider evals b (bm0, bs0) x) with (bm0, bs0)
        by (unfold consider; cbn [snd]; now rewrite E).
      rewrite Z.gtb_ltb in E. apply Z.ltb_ge in E.
      destruct (IH bm0 bs0) as [[Hr Hall]|(l1 & l2 & Hl & Hs & Hlt & H1 & H2)].
      * left. split; [exact Hr|]. intros y [<-|Hy]; [exact E|now apply Hall].
      * right. exists (x :: l1), l2. repeat split; auto.
        -- cbn [app]. now f_equal.
        -- intros y [<-|Hy]; [lia|now apply H1].
Qed.

(** The loop ends with its initial [best_move] or with a legal square. *)
Lemma selected_is_candidate (rem bm0 bs0 : Z) :
  0 <= rem < 2 ^ 64 ->
  let r := fold_left (consider evals b) (set_bits rem) (bm0, bs0) in
  fst r = bm0 \/ (0 <= fst r < 64 /\ Z.testbit rem (fst r) = true).
Proof.
  intros Hrem r.
  destruct (fold_consider_cases (set_bits rem) bm0 bs0)
    as [[Hr _]|(l1 & l2 & Hl & _)]; fold r in Hr || fold r in Hl.
  - left. now rewrite Hr.
  - right. assert (Hin : In (fst r) (set_bits rem)).
    { rewrite Hl. apply in_or_app. right. now left. }
    apply set_bits_spec in Hin as [H0 Hb]; [|lia].
    split; [|exact Hb]. split; [exact H0|].
    destruct (Z_lt_le_dec (fst r) 64) as [Hlt|Hge]; [exact Hlt|].
    rewrite testbit_above in Hb by assumption. discriminate Hb.
Qed.

End Selection.

(** ** Moves and passes *)

Section Transitions.

Context {BL : BoardLib} {EL : EvalLib}.

Lemma legality_test (moves mv : Z) :
  0 <= mv -> (Z.land (Z.shiftr moves mv) 1 =? 0) = negb (Z.testbit moves mv).
Proof.
  intros Hmv. change 1 with (Z.ones 1). rewrite Z.land_ones by lia.
  change (2 ^ 1) with 2. rewrite <- Z.bit0_mod, Z.shiftr_spec by lia.
  cbn [Z.add]. now destruct (Z.testbit moves mv).
Qed.

Lemma ApplyMove_legal (st : GameState) (mv : Z) :
  0 <= mv < 64 ->
  Z.testbit (GetMoves (Player (board st)) (Opponent (board st))) mv = true ->
  ApplyMove st mv
  = Some (true,
          mkState (PlayMove (board st)
                     (GetFlip mv (Player (board st)) (Opponent (board st))))
                  (negb (stm_is_black st))).
Proof.
  intros Hmv Hbit. unfold ApplyMove.
  replace ((0 <=? mv) && (mv <? 64)) with true
    by (symmetry; apply andb_true_iff; split; [apply Z.leb_le|apply Z.ltb_lt]; lia).
  rewrite legality_test, Hbit by lia. reflexivity.
Qed.

Lemma ApplyMove_accepted (st st' : GameState) (mv : Z) :
  ApplyMove st mv = Some (true, st') ->
  legal (board st) mv /\ mv < 64
  /\ stm_is_black st' = negb (stm_is_black st)
  /\ board st' = PlayMove (board st)
                   (GetFlip mv (Player (board st)) (Opponent (board st))).
Proof.
  unfold ApplyMove, legal.
  destruct ((0 <=? mv) && (mv <? 64)) eqn:Er; [|discriminate].
  apply andb_true_iff in Er as [H0 H1]. apply Z.leb_le in H0. apply Z.ltb_lt in H1.
  rewrite legality_test by exact H0.
  destruct (Z.testbit _ mv); cbn [negb]; [|discriminate].
  intros [= <-]. cbn. auto.
Qed.

Lemma ApplyMove_refused (st st' : GameState) (mv : Z) :
  ApplyMove st mv = Some (false, st') -> st' = st /\ ~ legal (board st) mv.
Proof.
  unfold ApplyMove, legal.
  destruct ((0 <=? mv) && (mv <? 64)) eqn:Er; [|discriminate].
  apply andb_true_iff in Er as [H0 H1]. apply Z.leb_le in H0.
  rewrite legality_test by exact H0.
  destruct (Z.testbit _ mv); cbn [negb]; [discriminate|].
  intros [= <-]. split; [reflexivity|]. intros [_ H]. discriminate H.
Qed.

End Transitions.

(** ** The handlers *)

Lemma ParseCoord_accepted_shape (s : string) (sq : Z) (p : bool) :
  ParseCoord s sq p <> None ->
  s = "PASS" \/ s = "pass"
  \/ exists f r, s = String f (String r "") /\ file_letter f /\ rank_digit r.
Proof.
  intros H.
  destruct (String.eqb s "PASS") eqn:E1.
  { apply String.eqb_eq in E1. auto. }
  destruct (String.eqb s "pass") eqn:E2.
  { apply String.eqb_eq in E2. auto. }
  right; right.
  destruct s as [|f [|r [|c t]]];
    try (exfalso; apply H; unfold ParseCoord; rewrite ?E1, ?E2; reflexivity).
  exists f, r. split; [reflexivity|].
  now apply (ParseCoord_two_chars_accepted f r sq p).
Qed.

Lemma ParseCoord_square (s : string) (sq0 sq : Z) (p0 : bool) :
  ParseCoord s sq0 p0 = Some (sq, false) -> 0 <= sq < 64.
Proof.
  intros H.
  assert (Hacc : ParseCoord s sq0 p0 <> None) by (rewrite H; discriminate).
  apply (ParseCoord_accepted_shape s sq0 p0) in Hacc
    as [Hp | [Hp | (f & r & -> & Hf & Hr)]].
  - rewrite ParseCoord_pass_literal in H by auto. discriminate H.
  - rewrite ParseCoord_pass_literal in H by auto. discriminate H.
  - rewrite ParseCoord_letter_digit in H by assumption.
    injection H as <-. apply file_letter_tolower in Hf. unfold rank_digit in Hr.
    change (code "a"%char) with 97 in *. change (code "h"%char) with 104 in *.
    change (code "1"%char) with 49 in *. change (code "8"%char) with 56 in *.
    lia.
Qed.

Section Dispatcher.

Context {BL : BoardLib} {EL : EvalLib}.

Lemma play_outcome (st : GameState) (id : Z) (iss : string) :
  exists out st', play st id iss = Continue out st' /\ settled st id out st'.
Proof.
  unfold play, settled.
  destruct (read_token iss) as [color_s iss1].
  destruct (read_token iss1) as [coord_s iss2].
  destruct (ParseColor color_s) as [is_black|].
  2:{ eexists _, _. split; [reflexivity|]. left. split; [apply Err_is_error|reflexivity]. }
  destruct (ParseCoord coord_s 0 false) as [[sq is_pass]|] eqn:Ec.
  2:{ eexists _, _. split; [reflexivity|]. left. split; [apply Err_is_error|reflexivity]. }
  destruct (negb (Bool.eqb is_black (stm_is_black st))).
  { eexists _, _. split; [reflexivity|]. left. split; [apply Err_is_error|reflexivity]. }
  destruct is_pass.
  { eexists _, _. split; [reflexivity|]. right. split; [now exists ""|].
    split; [reflexivity|]. now left. }
  apply ParseCoord_square in Ec.
  destruct (Z.testbit (GetMoves (Player (board st)) (Opponent (board st))) sq) eqn:Eb.
  - rewrite ApplyMove_legal by assumption.
    eexists _, _. split; [reflexivity|]. right. split; [now exists ""|].
    split; [reflexivity|]. right. exists sq. now apply ApplyMove_legal.
  - unfold ApplyMove.
    replace ((0 <=? sq) && (sq <? 64)) with true
      by (symmetry; apply andb_true_iff; split; [apply Z.leb_le|apply Z.ltb_lt]; lia).
    rewrite legality_test, Eb by lia. cbn [negb].
    eexists _, _. split; [reflexivity|]. left. split; [apply Err_is_error|reflexivity].
Qed.

Lemma genmove_outcome (evals : list EvalType) (st : GameState) (id : Z)
    (iss : string) :
  genmove evals st id iss = Undefined
  \/ exists out st',
       genmove evals st id iss = Continue out st' /\ settled st id out st'.
Proof.
  unfold genmove, settled.
  destruct (read_token iss) as [color_s iss1].
  destruct (ParseColor color_s) as [is_black|].
  2:{ right. eexists _, _. split; [reflexivity|]. left.
      split; [apply Err_is_error|reflexivity]. }
  destruct evals as [|e evals'].
  { right. eexists _, _. split; [reflexivity|]. left.
    split; [apply Err_is_error|reflexivity]. }
  destruct (negb (Bool.eqb is_black (stm_is_black st))).
  { right. eexists _, _. split; [reflexivity|]. left.
    split; [apply Err_is_error|reflexivity]. }
  destruct (GetMoves (Player (board st)) (Opponent (board st)) =? 0).
  { right. eexists _, _. split; [reflexivity|]. right. split; [now exists "PASS"|].
    split; [reflexivity|]. now left. }
  rewrite select_loop_64 by apply GetMoves_range.
  pose proof (selected_is_candidate (e :: evals') (board st)
                (GetMoves (Player (board st)) (Opponent (board st)))
                (-1) (-1000000000) (GetMoves_range _ _)) as Hsel.
  cbv zeta in Hsel.
  destruct (fold_left _ _ _) as [bm bs]. cbn [fst] in Hsel.
  destruct Hsel as [->|[Hr Hb]].
  - left. reflexivity.
  - right. rewrite ApplyMove_legal by assumption.
    eexists _, _. split; [reflexivity|]. right. split; [now eexists|].
    split; [reflexivity|]. right. exists bm. now apply ApplyMove_legal.
Qed.

Lemma process_line_request (evals : list EvalType) (st : GameState)
    (line : string) (id : Z) (verb iss : string) :
  request line id verb iss ->
  process_line evals st line = dispatch evals st id verb iss.
Proof.
  intros (He & cmdline & cmd & Hx & Hr & Hc & ->).
  unfold process_line. now rewrite He, Hx, Hr, Hc.
Qed.

(** A line is silently skipped, aborts the process on its id, or carries a
    request. *)
Lemma process_line_cases (evals : list EvalType) (st : GameState)
    (line : string) :
  process_line evals st line = Continue "" st
  \/ process_line evals st line = Throw
  \/ exists id verb iss, request line id verb iss.
Proof.
  unfold process_line, request.
  destruct (is_empty line) eqn:He; [now left|].
  destruct (extract_id _) as [[id cmdline]|] eqn:Hx; [|right; now left].
  destruct (read_token cmdline) as [cmd iss] eqn:Hr.
  destruct (is_empty cmd) eqn:Hc; [now left|].
  right; right. exists id, (lower cmd), iss. split; [reflexivity|].
  exists cmdline, cmd. auto.
Qed.

Lemma request_functional (line : string) (id id' : Z)
    (verb iss verb' iss' : string) :
  request line id verb iss -> request line id' verb' iss' ->
  id = id' /\ verb = verb' /\ iss = iss'.
Proof.
  intros (_ & c1 & m1 & Hx1 & Hr1 & _ & ->) (_ & c2 & m2 & Hx2 & Hr2 & _ & ->).
  rewrite Hx1 in Hx2. injection Hx2 as <- <-.
  rewrite Hr1 in Hr2. injection Hr2 as <- <-. auto.
Qed.

Lemma final_score_outcome (st : GameState) (id : Z) :
  exists out, final_score st id = Continue out st.
Proof.
  unfold final_score. destruct (negb (IsOver st)); [eexists; reflexivity|].
  destruct (CountDiscsAbs st). eexists; reflexivity.
Qed.

Lemma request_loop_snoc (evals : list EvalType) (st st1 : GameState)
    (pre : list string) (line : string) (outs : list string) :
  request_loop evals st pre = (outs, Eof st1) ->
  request_loop evals st (pre ++ [line]) =
  match process_line evals st1 line with
  | Continue out st2 => ((outs ++ [out])%list, Eof st2)
  | Break out st2 => ((outs ++ [out])%list, Quit st2)
  | Throw => (outs, Aborted)
  | Undefined => (outs, ExitUndefined)
  | OutOfFuel => (outs, ExitOutOfFuel)
  end.
Proof.
  revert st outs. induction pre as [|l pre IH]; intros st outs H.
  - cbn in H. injection H as <- <-. cbn.
    destruct (process_line evals st line); reflexivity.
  - cbn [app request_loop] in *.
    destruct (process_line evals st l) as [out st'| | | |]; try discriminate H.
    destruct (request_loop evals st' pre) as [outs' e] eqn:E.
    injection H as <- ->. rewrite (IH st' outs' E).
    destruct (process_line evals st1 line); reflexivity.
Qed.

End Dispatcher.

(** ** The dispatcher: errors, turns and scores *)

Section Protocol.

Context {BL : BoardLib} {EL : EvalLib}.

(** On the runs that end in a reply: an error reply leaves the game state
    (both bit patterns and the side to move) exactly as it was, and a
    success reply to [play] or [genmove] comes after exactly one pass or
    one accepted move.  (A [genmove] whose loop ends with [best_move] = -1
    is not such a run: its [ApplyMove] shifts by a count outside 0..63.) *)
Theorem errors_keep_state (evals : list EvalType) (st st' : GameState)
    (line out : string) :
  process_line evals st line = Continue out st' ->
  (is_error out -> st' = st)
  /\ (forall id verb iss payload,
        request line id verb iss ->
        verb = "play" \/ verb = "genmove" ->
        out = Ok id payload ->
        stm_is_black st' = negb (stm_is_black st)
        /\ (st' = ApplyPass st \/ exists mv, ApplyMove st mv = Some (true, st'))).
Proof.
  intros Hrun.
  assert (Hsettled : forall id o s,
             settled st id o s -> Continue o s = Continue out st' ->
             (is_error out -> st' = st)
             /\ (forall payload, out = Ok id payload ->
                   stm_is_black st' = negb (stm_is_black st)
                   /\ (st' = ApplyPass st
                       \/ exists mv, ApplyMove st mv = Some (true, st')))).
  { intros id o s Hs [= -> ->]. destruct Hs as [[He ->]|(Hok & Ht & Hm)].
    - split; [reflexivity|]. intros payload ->. now apply Ok_not_error in He.
    - split; [|auto]. intros He. destruct Hok as [payload ->].
      now apply Ok_not_error in He. }
  destruct (process_line_cases evals st line) as [H|[H|(id & verb & iss & Hreq)]].
  - rewrite H in Hrun. injection Hrun as <- <-. split; [reflexivity|].
    intros id verb iss payload _ _ Hout.
    destruct (Ok_head id payload) as [t Ht]. rewrite Ht in Hout. discriminate Hout.
  - rewrite H in Hrun. discriminate Hrun.
  - rewrite (process_line_request _ _ _ _ _ _ Hreq) in Hrun.
    assert (Hsame : forall id2 verb2 iss2,
               request line id2 verb2 iss2 -> id2 = id /\ verb2 = verb).
    { intros id2 verb2 iss2 H2.
      destruct (request_functional _ _ _ _ _ _ _ H2 Hreq) as (? & ? & ?). auto. }
    unfold dispatch in Hrun.
    destruct ((verb =? "quit") || (verb =? "exit"))%string; [discriminate Hrun|].
    destruct (verb =? "clear_board")%string eqn:Ecb.
    { apply String.eqb_eq in Ecb. injection Hrun as <- <-. split.
      - intros He. now apply Ok_not_error in He.
      - intros id2 verb2 iss2 payload H2 Hv _.
        apply Hsame in H2 as [_ ->]. subst verb. destruct Hv; discriminate. }
    destruct (verb =? "play")%string eqn:Epl.
    { destruct (play_outcome st id iss) as (o & s & Hp & Hs). rewrite Hp in Hrun.
      destruct (Hsettled id o s Hs Hrun) as [H1 H2]. split; [exact H1|].
      intros id2 verb2 iss2 payload Hr2 _ Hout.
      apply Hsame in Hr2 as [-> _]. now apply (H2 payload). }
    destruct (verb =? "genmove")%string eqn:Egm.
    { destruct (genmove_outcome evals st id iss) as [Hu|(o & s & Hp & Hs)].
      { rewrite Hu in Hrun. discriminate Hrun. }
      rewrite Hp in Hrun.
      destruct (Hsettled id o s Hs Hrun) as [H1 H2]. split; [exact H1|].
      intros id2 verb2 iss2 payload Hr2 _ Hout.
      apply Hsame in Hr2 as [-> _]. now apply (H2 payload). }
    apply String.eqb_neq in Epl, Egm.
    assert (Hother : forall id2 verb2 iss2,
               request line id2 verb2 iss2 ->
               verb2 = "play" \/ verb2 = "genmove" -> False).
    { intros id2 verb2 iss2 H2 Hv. apply Hsame in H2 as [_ ->].
      destruct Hv; contradiction. }
    destruct (verb =? "final_score")%string.
    { destruct (final_score_outcome st id) as [o Ho]. rewrite Ho in Hrun.
      injection Hrun as <- <-. split; [reflexivity|].
      intros id2 verb2 iss2 payload H2 Hv _. destruct (Hother _ _ _ H2 Hv). }
    injection Hrun as <- <-. split; [reflexivity|].
    intros id2 verb2 iss2 payload H2 Hv _. destruct (Hother _ _ _ H2 Hv).
Qed.

(** C4.  A [play] line whose colour and coordinate tokens both parse, but
    whose colour is not the side to move, is answered "wrong color to
    play" and leaves the state as it was, whatever the coordinate: the
    answer does not depend on the legal moves. *)
Theorem play_checks_turn_first (evals : list EvalType) (st : GameState)
    (line : string) (id : Z) (iss color_s iss1 coord_s iss2 : string)
    (is_black is_pass : bool) (sq : Z) :
  request line id "play" iss ->
  read_token iss = (color_s, iss1) ->
  read_token iss1 = (coord_s, iss2) ->
  ParseColor color_s = Some is_black ->
  ParseCoord coord_s 0 false = Some (sq, is_pass) ->
  is_black <> stm_is_black st ->
  process_line evals st line = Continue (Err id "wrong color to play") st.
Proof.
  intros Hreq Hc Hm Hcol Hsq Hturn.
  rewrite (process_line_request _ _ _ _ _ _ Hreq).
  unfold dispatch. cbn [String.eqb Ascii.eqb Bool.eqb orb].
  unfold play. rewrite Hc, Hm, Hcol, Hsq.
  replace (Bool.eqb is_black (stm_is_black st)) with false; [reflexivity|].
  symmetry. apply Bool.eqb_false_iff. exact Hturn.
Qed.

(** C5.  [final_score] answers "game not over" exactly when the game is not
    over, and leaves the state alone; when the game is over (neither side
    has a legal move) it answers B+n, W+n or 0 from the difference of the
    numbers of black and white discs. *)
Theorem final_score_reply (evals : list EvalType) (st : GameState)
    (line : string) (id : Z) (iss : string) :
  request line id "final_score" iss ->
  (process_line evals st line = Continue (Err id "game not over") st
   <-> IsOver st = false)
  /\ (IsOver st = true ->
      exists r,
        process_line evals st line = Continue (Ok id r) st
        /\ score_text (popcountll (black_discs st) - popcountll (white_discs st)) r)
  /\ (IsOver st = true <->
      GetMoves (Player (board st)) (Opponent (board st)) = 0
      /\ GetMoves (Opponent (board st)) (Player (board st)) = 0).
Proof.
  intros Hreq. rewrite (process_line_request _ _ _ _ _ _ Hreq).
  unfold dispatch. cbn [String.eqb Ascii.eqb Bool.eqb orb].
  assert (Hover : IsOver st = true ->
            exists r,
              final_score st id = Continue (Ok id r) st
              /\ score_text (popcountll (black_discs st) - popcountll (white_discs st)) r).
  { intros Ho. unfold final_score. rewrite Ho. cbn [negb].
    unfold CountDiscsAbs, black_discs, white_discs.
    set (diff := popcountll (if stm_is_black st then _ else _)
                 - popcountll (if stm_is_black st then _ else _)).
    eexists. split; [reflexivity|]. unfold score_text.
    destruct (diff >? 0) eqn:E1.
    { apply Z.gtb_lt in E1. repeat split; intros; first [reflexivity | lia]. }
    rewrite Z.gtb_ltb in E1. apply Z.ltb_ge in E1.
    destruct (diff <? 0) eqn:E2.
    { apply Z.ltb_lt in E2. repeat split; intros; first [reflexivity | lia]. }
    apply Z.ltb_ge in E2. repeat split; intros; first [reflexivity | lia]. }
  split; [|split].
  - split.
    + intros H. destruct (IsOver st) eqn:Ho; [|reflexivity].
      destruct (Hover eq_refl) as (r & Hr & _). rewrite Hr in H.
      injection H as H. exfalso. apply (Ok_not_error id r). rewrite H.
      apply Err_is_error.
    + intros Ho. unfold final_score. now rewrite Ho.
  - exact Hover.
  - unfold IsOver, IsGameOver. rewrite andb_true_iff, !Z.eqb_eq. tauto.
Qed.

(** C6.  With no legal move for the side to move, a loaded evaluator and
    the right colour, [genmove] answers PASS and toggles the side to move;
    as a move with an empty flip mask only swaps the two sides of the board
    ([pass_swaps], spec 4.2), the discs of each colour are as before. *)
Theorem genmove_passes (evals : list EvalType) (st : GameState)
    (line : string) (id : Z) (iss color_s iss1 : string) :
  request line id "genmove" iss ->
  read_token iss = (color_s, iss1) ->
  ParseColor color_s = Some (stm_is_black st) ->
  evals <> [] ->
  GetMoves (Player (board st)) (Opponent (board st)) = 0 ->
  pass_swaps (board st) ->
  exists st',
    process_line evals st line = Continue (Ok id "PASS") st'
    /\ st' = ApplyPass st
    /\ stm_is_black st' = negb (stm_is_black st)
    /\ Player (board st') = Opponent (board st)
    /\ Opponent (board st') = Player (board st)
    /\ black_discs st' = black_discs st
    /\ white_discs st' = white_discs st.
Proof.
  intros Hreq Hc Hcol Hev Hmoves Hswap.
  rewrite (process_line_request _ _ _ _ _ _ Hreq).
  unfold dispatch. cbn [String.eqb Ascii.eqb Bool.eqb orb].
  unfold genmove. rewrite Hc, Hcol, Bool.eqb_reflx, Hmoves. cbn [negb Z.eqb].
  destruct evals as [|e evals']; [contradiction|].
  exists (ApplyPass st). split; [reflexivity|]. split; [reflexivity|].
  unfold pass_swaps in Hswap.
  unfold ApplyPass, black_discs, white_discs. cbn [board stm_is_black].
  rewrite !Hswap. cbn [Player Opponent].
  destruct (stm_is_black st); cbn [negb]; repeat split; reflexivity.
Qed.

(** C8, amended.  When neither the configured file nor the fallback gives
    a table, every [genmove] line of the session whose colour token parses
    is answered "evals not loaded" and leaves the state alone, whatever
    lines came before and whatever the board; a [genmove] line whose colour
    token does not parse is answered "illegal color". *)
Theorem genmove_without_evals (args pre : list string) (line : string)
    (outs : list string) (st : GameState) (id : Z) (iss color_s iss1 : string) :
  both_loads_fail args ->
  main args pre = (outs, Eof st) ->
  request line id "genmove" iss ->
  read_token iss = (color_s, iss1) ->
  main args (pre ++ [line])
  = ((outs ++ [Err id (match ParseColor color_s with
                        | Some _ => "evals not loaded"
                        | None => "illegal color"
                        end)])%list, Eof st).
Proof.
  intros [H1 H2] Hpre Hreq Hc. unfold main in *.
  assert (Hev : startup_evals args = []).
  { unfold startup_evals. rewrite H1. exact H2. }
  rewrite Hev in *. rewrite (request_loop_snoc _ _ _ _ _ _ Hpre).
  rewrite (process_line_request _ _ _ _ _ _ Hreq).
  unfold dispatch. cbn [String.eqb Ascii.eqb Bool.eqb orb].
  unfold genmove. rewrite Hc. destruct (ParseColor color_s); reflexivity.
Qed.

(** C9 fails on an id above [INT_MAX]: [std::stoi] throws, nothing catches
    the exception, and the process ends without a reply although the line
    is not a [quit]. *)
Theorem oversized_id_aborts (evals : list EvalType) (st : GameState)
    (args : list string) :
  process_line evals st "2147483648 clear_board" = Throw
  /\ main args ["2147483648 clear_board"; "clear_board"] = ([], Aborted).
Proof.
  split; reflexivity.
Qed.

End Protocol.

(** ** The depth-1 selection *)

Section BestMove.

Context {BL : BoardLib} {EL : EvalLib}.

Lemma legal_in_set_bits (b : Board) (mv : Z) :
  In mv (set_bits (GetMoves (Player b) (Opponent b))) <-> legal b mv.
Proof.
  apply set_bits_spec. apply GetMoves_range.
Qed.

Lemma legal_below_64 (b : Board) (mv : Z) : legal b mv -> mv < 64.
Proof.
  intros [H0 Hb]. destruct (Z_lt_le_dec mv 64) as [Hlt|Hge]; [exact Hlt|].
  rewrite testbit_above in Hb; [discriminate Hb|apply GetMoves_range|exact Hge].
Qed.

Lemma move_score_exact (evals : list EvalType) (b : Board) (mv : Z) :
  - 2 ^ 31 < score_after evals b mv < 2 ^ 31 ->
  move_score evals b mv = - score_after evals b mv.
Proof.
  intros H. change (move_score evals b mv) with (wrap32s (- score_after evals b mv)).
  apply wrap32s_exact. lia.
Qed.

Lemma some_legal_move (b : Board) :
  GetMoves (Player b) (Opponent b) <> 0 -> exists mv, legal b mv.
Proof.
  intros Hne. pose proof (GetMoves_range (Player b) (Opponent b)) as Hr.
  exists (ctzll (GetMoves (Player b) (Opponent b))).
  apply legal_in_set_bits. rewrite set_bits_step by lia. now left.
Qed.

Lemma loop_scans_ascending (evals : list EvalType) (b : Board) :
  scans_ascending evals b.
Proof.
  unfold scans_ascending. cbv zeta. split; [|split].
  - intros bm bs. apply select_loop_64, GetMoves_range.
  - apply set_bits_sorted.
  - intros mv. apply legal_in_set_bits.
Qed.

(** What the scan selects when some legal move beats the initial score. *)
Lemma best_of_scan (evals : list EvalType) (b : Board) :
  (forall mv, legal b mv -> - 2 ^ 31 < score_after evals b mv < 2 ^ 31) ->
  (exists mv, legal b mv /\ score_after evals b mv < 1000000000) ->
  exists bm bs,
    fold_left (consider evals b) (set_bits (GetMoves (Player b) (Opponent b)))
      (-1, -1000000000) = (bm, bs)
    /\ 0 <= bm < 64
    /\ legal b bm
    /\ (forall mv, legal b mv -> - score_after evals b mv <= - score_after evals b bm)
    /\ (forall mv, legal b mv -> mv < bm ->
          - score_after evals b mv < - score_after evals b bm).
Proof.
  intros Hint (mv0 & Hl0 & Hs0).
  set (l := set_bits (GetMoves (Player b) (Opponent b))).
  destruct (fold_consider_cases evals b l (-1) (-1000000000))
    as [[_ Hall]|(l1 & l2 & Hl & Hs & _ & H1 & H2)].
  { apply legal_in_set_bits in Hl0 as Hin. apply Hall in Hin.
    rewrite (move_score_exact evals b mv0) in Hin by now apply Hint. lia. }
  destruct (fold_left (consider evals b) l (-1, -1000000000)) as [bm bs].
  cbn [fst snd] in *. exists bm, bs. split; [reflexivity|].
  assert (Hbm : legal b bm).
  { apply legal_in_set_bits. fold l. rewrite Hl. apply in_or_app. right. now left. }
  assert (Hbs : bs = - score_after evals b bm).
  { rewrite Hs. apply move_score_exact, Hint, Hbm. }
  assert (Hsplit : forall mv, legal b mv -> In mv l1 \/ mv = bm \/ In mv l2).
  { intros mv Hmv. apply legal_in_set_bits in Hmv. fold l in Hmv. rewrite Hl in Hmv.
    apply in_app_or in Hmv as [H|[H|H]]; auto. }
  split; [|split; [exact Hbm|split]].
  - split; [apply Hbm|exact (legal_below_64 b bm Hbm)].
  - intros mv Hmv. rewrite <- Hbs, <- (move_score_exact evals b mv) by now apply Hint.
    destruct (Hsplit mv Hmv) as [H|[->|H]].
    + apply H1 in H. lia.
    + rewrite Hs. lia.
    + now apply H2.
  - intros mv Hmv Hlt.
    rewrite <- Hbs, <- (move_score_exact evals b mv) by now apply Hint.
    destruct (Hsplit mv Hmv) as [H|[->|H]].
    + now apply H1.
    + lia.
    + pose proof (set_bits_sorted (GetMoves (Player b) (Opponent b))) as Hsorted.
      fold l in Hsorted. rewrite Hl in Hsorted.
      pose proof (sorted_after _ _ _ _ Hsorted H). lia.
Qed.

(** C1, amended.  With a legal move for the side to move, a loaded
    evaluator and the right colour, and provided that the position after
    at least one legal move scores strictly below 1000000000 and that the
    score after every legal move can be negated in [int] (it is not
    [INT_MIN]), [genmove] plays and answers the legal square that maximises
    the negated score of the resulting position; the loop takes the
    squares in ascending order and the lowest square wins ties. *)
Theorem genmove_plays_best (evals : list EvalType) (st : GameState)
    (line : string) (id : Z) (iss color_s iss1 : string) :
  request line id "genmove" iss ->
  read_token iss = (color_s, iss1) ->
  ParseColor color_s = Some (stm_is_black st) ->
  evals <> [] ->
  GetMoves (Player (board st)) (Opponent (board st)) <> 0 ->
  (forall mv, legal (board st) mv ->
     - 2 ^ 31 < score_after evals (board st) mv < 2 ^ 31) ->
  (exists mv, legal (board st) mv
              /\ score_after evals (board st) mv < 1000000000) ->
  plays_best_move evals st line id /\ scans_ascending evals (board st).
Proof.
  intros Hreq Hc Hcol Hev Hmoves Hint Hex.
  split; [|apply loop_scans_ascending].
  destruct (best_of_scan evals (board st) Hint Hex)
    as (bm & bs & Hfold & Hr & Hlegal & Hmax & Htie).
  exists bm. eexists. split; [|split; [|split; [exact Hlegal|split; assumption]]].
  - rewrite (process_line_request _ _ _ _ _ _ Hreq).
    unfold dispatch. cbn [String.eqb Ascii.eqb Bool.eqb orb].
    unfold genmove. rewrite Hc, Hcol, Bool.eqb_reflx. cbn [negb].
    destruct evals as [|e evals']; [contradiction|].
    apply Z.eqb_neq in Hmoves as ->.
    rewrite select_loop_64, Hfold by apply GetMoves_range.
    rewrite ApplyMove_legal by (try apply Hlegal; exact Hr). reflexivity.
  - apply ApplyMove_legal; [exact Hr|apply Hlegal].
Qed.

(** C10.  When every evaluator score is strictly between -1000000000 and
    1000000000 and the side to move has a legal move, the selection loop
    ends (with the 64 iterations of the model and with any larger bound)
    on a [best_move] that is a set bit of the legal-move mask, hence not
    -1, and the [ApplyMove] that follows returns true. *)
Theorem selection_finds_legal_move (evals : list EvalType) (st : GameState) :
  GetMoves (Player (board st)) (Opponent (board st)) <> 0 ->
  (forall p o, - 1000000000 < Evaluate evals p o < 1000000000) ->
  exists best_move best_score st',
    (forall fuel, (64 <= fuel)%nat ->
       select_loop fuel evals (board st)
         (GetMoves (Player (board st)) (Opponent (board st)))
         (-1) (-1000000000) = Some (best_move, best_score))
    /\ Z.testbit (GetMoves (Player (board st)) (Opponent (board st))) best_move = true
    /\ 0 <= best_move < 64
    /\ best_move <> -1
    /\ ApplyMove st best_move = Some (true, st').
Proof.
  intros Hmoves Hbound.
  assert (Hint : forall mv, legal (board st) mv ->
                   - 2 ^ 31 < score_after evals (board st) mv < 2 ^ 31).
  { intros mv _. unfold score_after. specialize (Hbound
      (Player (PlayMove (board st) (GetFlip mv (Player (board st)) (Opponent (board st)))))
      (Opponent (PlayMove (board st) (GetFlip mv (Player (board st)) (Opponent (board st)))))).
    cbv zeta. lia. }
  assert (Hex : exists mv, legal (board st) mv
                           /\ score_after evals (board st) mv < 1000000000).
  { destruct (some_legal_move (board st) Hmoves) as [mv Hmv]. exists mv.
    split; [exact Hmv|]. unfold score_after. cbv zeta. apply Hbound. }
  destruct (best_of_scan evals (board st) Hint Hex)
    as (bm & bs & Hfold & Hr & Hlegal & _).
  exists bm, bs. eexists. split; [|split; [apply Hlegal|split; [exact Hr|split; [lia|]]]].
  - intros fuel Hfuel. rewrite select_loop_fold, Hfold; [reflexivity|apply GetMoves_range|].
    pose proof (set_bits_length 64 _ (GetMoves_range (Player (board st)) (Opponent (board st)))).
    lia.
  - apply ApplyMove_legal; [exact Hr|apply Hlegal].
Qed.

End BestMove.

(** ** When the process aborts *)

Section Abort.

Context {BL : BoardLib} {EL : EvalLib}.

Lemma dispatch_never_throws (evals : list EvalType) (st : GameState) (id : Z)
    (verb iss : string) :
  dispatch evals st id verb iss <> Throw.
Proof.
  unfold dispatch.
  destruct ((verb =? "quit") || (verb =? "exit"))%string; [discriminate|].
  destruct (verb =? "clear_board")%string; [discriminate|].
  destruct (verb =? "play")%string.
  { destruct (play_outcome st id iss) as (o & s & -> & _). discriminate. }
  destruct (verb =? "genmove")%string.
  { destruct (genmove_outcome evals st id iss) as [->|(o & s & -> & _)]; discriminate. }
  destruct (verb =? "final_score")%string; [|discriminate].
  destruct (final_score_outcome st id) as [o ->]. discriminate.
Qed.

(** The 64 iterations given to the selection loop are enough. *)
Lemma dispatch_has_fuel (evals : list EvalType) (st : GameState) (id : Z)
    (verb iss : string) :
  dispatch evals st id verb iss <> OutOfFuel.
Proof.
  unfold dispatch.
  destruct ((verb =? "quit") || (verb =? "exit"))%string; [discriminate|].
  destruct (verb =? "clear_board")%string; [discriminate|].
  destruct (verb =? "play")%string.
  { destruct (play_outcome st id iss) as (o & s & -> & _). discriminate. }
  destruct (verb =? "genmove")%string.
  { destruct (genmove_outcome evals st id iss) as [->|(o & s & -> & _)]; discriminate. }
  destruct (verb =? "final_score")%string; [|discriminate].
  destruct (final_score_outcome st id) as [o ->]. discriminate.
Qed.

Lemma process_line_has_fuel (evals : list EvalType) (st : GameState)
    (line : string) :
  process_line evals st line <> OutOfFuel.
Proof.
  destruct (process_line_cases evals st line) as [H|[H|(id & verb & iss & Hreq)]].
  - rewrite H. discriminate.
  - rewrite H. discriminate.
  - rewrite (process_line_request _ _ _ _ _ _ Hreq). apply dispatch_has_fuel.
Qed.

(** X22.  A line makes the exception of [std::stoi] escape, and so ends the
    process without a reply, exactly when its first token is a run of
    digits whose value does not fit an [int]; the handlers never throw. *)
Lemma throws_exactly_on_oversized_id (evals : list EvalType) (st : GameState)
    (line : string) :
  process_line evals st line = Throw <->
  is_empty line = false
  /\ let tok := fst (read_token
                      (match skip_blank line with Some c => c | None => line end)) in
     is_empty tok = false /\ all_of isdigit tok = true
     /\ INT_MAX < digits_value 0 tok.
Proof.
  unfold process_line, extract_id, stoi. cbv zeta.
  destruct (is_empty line); [split; [discriminate|intros [H _]; discriminate H]|].
  destruct (read_token _) as [tok ss]. cbn [fst].
  destruct (is_empty tok); cbn [negb andb].
  { destruct (read_token _) as [cmd iss].
    split; [|intros (_ & H & _); discriminate H].
    destruct (is_empty cmd); [discriminate|].
    intros H. now apply dispatch_never_throws in H. }
  destruct (all_of isdigit tok).
  - destruct (digits_value 0 tok <=? INT_MAX) eqn:E.
    + apply Z.leb_le in E. split; [|intros (_ & _ & _ & H); lia].
      destruct (skip_blank _); destruct (read_token _) as [cmd iss];
        (destruct (is_empty cmd); [discriminate|]);
        intros H; now apply dispatch_never_throws in H.
    + apply Z.leb_gt in E. split; auto.
  - destruct (read_token _) as [cmd iss].
    split; [|intros (_ & _ & H & _); discriminate H].
    destruct (is_empty cmd); [discriminate|].
    intros H. now apply dispatch_never_throws in H.
Qed.

End Abort.

(** ** The properties on the reference instances *)

Section Examples.

Import Reference.

Lemma request_play_w_d3 : request "play w d3" (-1) "play" " w d3".
Proof.
  split; [reflexivity|]. exists "play w d3", "play". repeat split; reflexivity.
Defined.

Lemma request_genmove_b : request "genmove b" (-1) "genmove" " b".
Proof.
  split; [reflexivity|]. exists "genmove b", "genmove". repeat split; reflexivity.
Defined.

Lemma request_genmove_x : request "genmove x" (-1) "genmove" " x".
Proof.
  split; [reflexivity|]. exists "genmove x", "genmove". repeat split; reflexivity.
Defined.

Lemma request_final_score : request "12 final_score" 12 "final_score" "".
Proof.
  split; [reflexivity|]. exists "final_score", "final_score".
  repeat split; reflexivity.
Defined.

Lemma disc_difference_bounded (p o : Z) : -64 <= disc_difference p o <= 64.
Proof. unfold disc_difference. lia. Defined.

Lemma d3_is_legal : legal (BL := Othello) (board opening) 19.
Proof. split; [lia|reflexivity]. Defined.

(** C1, as worded, fails for an evaluator whose scores reach 1000000000:
    in the opening position black has legal moves, the table is loaded and
    the colour is right, but no negated score exceeds the initial
    [best_score], [best_move] stays -1 and no legal square is answered. *)
Lemma saturated_scores_select_nothing :
  request "genmove b" (-1) "genmove" " b"
  /\ ParseColor "b" = Some (stm_is_black opening)
  /\ startup_evals (EL := SaturatedEval) [] = [0]
  /\ (exists mv, legal (BL := Othello) (board opening) mv)
  /\ main (BL := Othello) (EL := SaturatedEval) [] ["genmove b"]
     = ([], ExitUndefined)
  /\ ~ plays_best_move (BL := Othello) (EL := SaturatedEval)
        [0] opening "genmove b" (-1).
Proof.
  split; [exact request_genmove_b|]. split; [reflexivity|].
  split; [reflexivity|]. split; [exists 19; exact d3_is_legal|].
  split; [vm_compute; reflexivity|].
  intros (best & st' & H & _).
  assert (E : process_line (BL := Othello) (EL := SaturatedEval)
                [0] opening "genmove b" = Undefined) by (vm_compute; reflexivity).
  rewrite E in H. discriminate H.
Qed.

(** The opening position with the disc-difference evaluator: black's
    [genmove] plays the best of d3, c4, f5 and e6. *)
Lemma genmove_plays_best_witness :
  plays_best_move (BL := Othello) (EL := DiscEval) [0] opening "genmove b" (-1)
  /\ scans_ascending (BL := Othello) (EL := DiscEval) [0] (board opening).
Proof.
  apply (genmove_plays_best (BL := Othello) (EL := DiscEval)
           [0] opening "genmove b" (-1) " b" "b" "").
  - exact request_genmove_b.
  - reflexivity.
  - reflexivity.
  - discriminate.
  - vm_compute. discriminate.
  - intros mv _. unfold score_after. cbv zeta.
    match goal with
    | |- context [Evaluate _ ?p ?o] =>
        change (Evaluate (EvalLib := DiscEval) [0] p o) with (disc_difference p o);
        pose proof (disc_difference_bounded p o)
    end.
    lia.
  - exists 19. split; [exact d3_is_legal|]. vm_compute. reflexivity.
Defined.

(** [play b d3] in the opening position is accepted and gives the turn
    to white. *)
Lemma errors_keep_state_witness :
  let st' := mkState (mkBoard 68719476736 34762915840) false in
  process_line (BL := Othello) (EL := DiscEval) [0] opening "play b d3"
  = Continue (Ok (-1) "") st'
  /\ ((is_error (Ok (-1) "") -> st' = opening)
      /\ (forall id verb iss payload,
            request "play b d3" id verb iss ->
            verb = "play" \/ verb = "genmove" ->
            Ok (-1) "" = Ok id payload ->
            stm_is_black st' = negb (stm_is_black opening)
            /\ (st' = ApplyPass (BL := Othello) opening
                \/ exists mv, ApplyMove (BL := Othello) opening mv = Some (true, st')))).
Proof.
  cbv zeta. split; [vm_compute; reflexivity|].
  apply (errors_keep_state (BL := Othello) (EL := DiscEval) [0]).
  vm_compute. reflexivity.
Defined.

(** [play w d3] in the opening position: d3 is legal for black, and
    white is refused for the turn. *)
Lemma play_checks_turn_first_witness :
  process_line (BL := Othello) (EL := DiscEval) [0] opening "play w d3"
  = Continue (Err (-1) "wrong color to play") opening.
Proof.
  apply (play_checks_turn_first (BL := Othello) (EL := DiscEval)
           [0] opening "play w d3" (-1) " w d3" "w" " d3" "d3" "" false false 19).
  - exact request_play_w_d3.
  - reflexivity.
  - reflexivity.
  - reflexivity.
  - reflexivity.
  - discriminate.
Defined.

(** [final_score] on a position where neither side can move. *)
Lemma final_score_reply_witness :
  (process_line (BL := Othello) (EL := DiscEval) [0] finished "12 final_score"
   = Continue (Err 12 "game not over") finished
   <-> IsOver (BL := Othello) finished = false)
  /\ (IsOver (BL := Othello) finished = true ->
      exists r,
        process_line (BL := Othello) (EL := DiscEval) [0] finished "12 final_score"
        = Continue (Ok 12 r) finished
        /\ score_text (popcountll (black_discs finished)
                       - popcountll (white_discs finished)) r)
  /\ (IsOver (BL := Othello) finished = true <->
      GetMoves (BoardLib := Othello) (Player (board finished)) (Opponent (board finished)) = 0
      /\ GetMoves (BoardLib := Othello) (Opponent (board finished)) (Player (board finished)) = 0).
Proof.
  apply (final_score_reply (BL := Othello) (EL := DiscEval)
           [0] finished "12 final_score" 12 "").
  exact request_final_score.
Defined.

(** [genmove b] where black has no move. *)
Lemma genmove_passes_witness :
  exists st',
    process_line (BL := Othello) (EL := DiscEval) [0] must_pass "genmove b"
    = Continue (Ok (-1) "PASS") st'
    /\ st' = ApplyPass (BL := Othello) must_pass
    /\ stm_is_black st' = negb (stm_is_black must_pass)
    /\ Player (board st') = Opponent (board must_pass)
    /\ Opponent (board st') = Player (board must_pass)
    /\ black_discs st' = black_discs must_pass
    /\ white_discs st' = white_discs must_pass.
Proof.
  apply (genmove_passes (BL := Othello) (EL := DiscEval)
           [0] must_pass "genmove b" (-1) " b" "b" "").
  - exact request_genmove_b.
  - reflexivity.
  - reflexivity.
  - discriminate.
  - vm_compute. reflexivity.
  - reflexivity.
Defined.

(** C8, as worded, fails: with no table loaded, a [genmove] line whose
    colour token does not parse is answered "illegal color", not "evals
    not loaded", because the colour is parsed first. *)
Lemma bad_color_is_reported_first :
  both_loads_fail (EL := NoEval) []
  /\ ~ genmove_unavailable (BL := Othello) (EL := NoEval) [].
Proof.
  split; [split; reflexivity|].
  intros H.
  specialize (H [] "genmove x" [] opening (-1) " x" eq_refl request_genmove_x).
  vm_compute in H. discriminate H.
Qed.

(** A session started with a missing table: the second line is a [genmove]
    for the side to move. *)
Lemma genmove_without_evals_witness :
  both_loads_fail (EL := NoEval) ["--eval"; "missing.dat"]
  /\ main (BL := Othello) (EL := NoEval) ["--eval"; "missing.dat"]
       ["play b d3"; "genmove w"]
     = ([Ok (-1) ""; Err (-1) "evals not loaded"],
        Eof (mkState (mkBoard 68719476736 34762915840) false)).
Proof.
  assert (Hload : both_loads_fail (EL := NoEval) ["--eval"; "missing.dat"])
    by (split; reflexivity).
  split; [exact Hload|].
  apply (genmove_without_evals (BL := Othello) (EL := NoEval)
           ["--eval"; "missing.dat"] ["play b d3"] "genmove w" [Ok (-1) ""]
           (mkState (mkBoard 68719476736 34762915840) false)
           (-1) " w" "w" "" Hload).
  - vm_compute. reflexivity.
  - split; [reflexivity|]. exists "genmove w", "genmove". repeat split; reflexivity.
  - reflexivity.
Defined.

(** The selection loop on the opening position. *)
Lemma selection_finds_legal_move_witness :
  exists best_move best_score st',
    (forall fuel, (64 <= fuel)%nat ->
       select_loop (BL := Othello) (EL := DiscEval) fuel [0] (board opening)
         (GetMoves (BoardLib := Othello) (Player (board opening)) (Opponent (board opening)))
         (-1) (-1000000000) = Some (best_move, best_score))
    /\ Z.testbit (GetMoves (BoardLib := Othello) (Player (board opening))
                   (Opponent (board opening))) best_move = true
    /\ 0 <= best_move < 64
    /\ best_move <> -1
    /\ ApplyMove (BL := Othello) opening best_move = Some (true, st').
Proof.
  apply (selection_finds_legal_move (BL := Othello) (EL := DiscEval) [0] opening).
  - vm_compute. discriminate.
  - intros p o. pose proof (disc_difference_bounded p o) as H.
    change (Evaluate (EvalLib := DiscEval) [0] p o) with (disc_difference p o). lia.
Defined.

End Examples.

(** * Further properties of the front end *)

(** ** The codecs, the other way round *)

Lemma tolower_idempotent (c : ascii) : tolower (tolower c) = tolower c.
Proof.
  destruct (Z_lt_le_dec (code c) (code "A"%char)) as [Hlo|Hlo].
  { now rewrite !(tolower_other c) by auto. }
  destruct (Z_lt_le_dec (code "Z"%char) (code c)) as [Hhi|Hhi].
  { now rewrite !(tolower_other c) by auto. }
  apply tolower_lowercase. rewrite tolower_uppercase by lia.
  change (code "A"%char) with 65 in Hlo. change (code "a"%char) with 97. lia.
Qed.

Lemma lower_idempotent (s : string) : lower (lower s) = lower s.
Proof.
  induction s as [|c s IH]; cbn [lower]; [reflexivity|].
  now rewrite tolower_idempotent, IH.
Qed.

Lemma lower_length (s : string) : String.length (lower s) = String.length s.
Proof.
  induction s as [|c s IH]; cbn [lower String.length]; congruence.
Qed.

(** X1.  Formatting a square 0..63 gives a lower-case coordinate "a1" ...
    "h8", and parsing that text gives the square back (and no pass). *)
Theorem square_roundtrip (sq sq0 : Z) (p0 : bool) :
  0 <= sq < 64 ->
  lowercase_coordinate (SqToCoord sq)
  /\ ParseCoord (SqToCoord sq) sq0 p0 = Some (sq, false).
Proof.
  intros Hsq. unfold SqToCoord.
  rewrite Z.rem_mod_nonneg, Z.quot_div_nonneg by lia.
  pose proof (Z.mod_pos_bound sq 8 ltac:(lia)) as Hx.
  assert (Hy : 0 <= sq / 8 < 8).
  { split; [apply Z.div_pos; lia|apply Z.div_lt_upper_bound; lia]. }
  change (code "a"%char) with 97. change (code "1"%char) with 49.
  set (f := chr (97 + sq mod 8)). set (r := chr (49 + sq / 8)).
  assert (Hf : code f = 97 + sq mod 8) by (apply code_chr; lia).
  assert (Hr : code r = 49 + sq / 8) by (apply code_chr; lia).
  assert (Hlf : code "a"%char <= code f <= code "h"%char).
  { change (code "a"%char) with 97. change (code "h"%char) with 104. lia. }
  assert (Hrd : rank_digit r).
  { unfold rank_digit. change (code "1"%char) with 49.
    change (code "8"%char) with 56. lia. }
  split.
  - exists f, r. auto.
  - rewrite ParseCoord_letter_digit by (unfold file_letter; auto).
    rewrite tolower_lowercase by apply Hlf.
    change (code "a"%char) with 97. change (code "1"%char) with 49.
    rewrite Hf, Hr. f_equal. f_equal.
    pose proof (Z.div_mod sq 8 ltac:(lia)). lia.
Qed.

(** X2.  Whatever token the parser accepts as a square, formatting the
    square gives the token in lower case: "D3" comes back as "d3". *)
Theorem format_of_parsed_is_lowercase (s : string) (sq0 sq : Z) (p0 : bool) :
  ParseCoord s sq0 p0 = Some (sq, false) -> SqToCoord sq = lower s.
Proof.
  intros H.
  assert (Hacc : ParseCoord s sq0 p0 <> None) by (rewrite H; discriminate).
  apply ParseCoord_accepted_shape in Hacc as [Hp | [Hp | (f & r & -> & Hf & Hr)]].
  - rewrite ParseCoord_pass_literal in H by auto. discriminate H.
  - rewrite ParseCoord_pass_literal in H by auto. discriminate H.
  - rewrite ParseCoord_letter_digit in H by assumption. injection H as <-.
    cbn [lower]. apply file_letter_tolower in Hf. unfold rank_digit in Hr.
    rewrite (tolower_other r)
      by (left; change (code "A"%char) with 65; change (code "8"%char) with 56 in Hr; lia).
    change (code "a"%char) with 97 in *. change (code "h"%char) with 104 in *.
    change (code "1"%char) with 49 in *. change (code "8"%char) with 56 in *.
    unfold SqToCoord.
    change (code "a"%char) with 97. change (code "1"%char) with 49.
    replace (Z.rem ((code r - 49) * 8 + (code (tolower f) - 97)) 8)
      with (code (tolower f) - 97).
    2:{ rewrite Z.rem_mod_nonneg by lia.
        rewrite Z.add_comm, Z.mod_add by lia. rewrite Z.mod_small; lia. }
    replace (Z.quot ((code r - 49) * 8 + (code (tolower f) - 97)) 8)
      with (code r - 49).
    2:{ rewrite Z.quot_div_nonneg by lia.
        rewrite Z.add_comm, Z.div_add by lia. rewrite Z.div_small; lia. }
    replace (97 + (code (tolower f) - 97)) with (code (tolower f)) by lia.
    replace (49 + (code r - 49)) with (code r) by lia.
    now rewrite !chr_code.
Qed.

(** X3.  The colour parser looks at the token in lower case only: it
    answers black exactly for the spellings of "b" and "black", white
    exactly for those of "w" and "white", and rejects everything else, in
    particular the empty token of a missing argument and every token that
    has not one or five characters. *)
Theorem ParseColor_accepts (s : string) :
  ParseColor (lower s) = ParseColor s
  /\ (ParseColor s = Some true <-> lower s = "b" \/ lower s = "black")
  /\ (ParseColor s = Some false <-> lower s = "w" \/ lower s = "white")
  /\ (String.length s <> 1%nat -> String.length s <> 5%nat -> ParseColor s = None).
Proof.
  assert (Hb : ParseColor s = Some true <-> lower s = "b" \/ lower s = "black").
  { unfold ParseColor.
    destruct (String.eqb (lower s) "b") eqn:E1.
    { apply String.eqb_eq in E1. cbn [orb]. tauto. }
    destruct (String.eqb (lower s) "black") eqn:E2.
    { apply String.eqb_eq in E2. cbn [orb]. tauto. }
    apply String.eqb_neq in E1, E2. cbn [orb].
    destruct ((_ =? "w") || _)%string; split; try discriminate; tauto. }
  assert (Hw : ParseColor s = Some false <-> lower s = "w" \/ lower s = "white").
  { unfold ParseColor.
    destruct (String.eqb (lower s) "b") eqn:E1.
    { apply String.eqb_eq in E1. cbn [orb]. rewrite E1.
      split; [discriminate|intros [H|H]; discriminate H]. }
    destruct (String.eqb (lower s) "black") eqn:E2.
    { apply String.eqb_eq in E2. cbn [orb]. rewrite E2.
      split; [discriminate|intros [H|H]; discriminate H]. }
    cbn [orb].
    destruct (String.eqb (lower s) "w") eqn:E3.
    { apply String.eqb_eq in E3. cbn [orb]. tauto. }
    destruct (String.eqb (lower s) "white") eqn:E4.
    { apply String.eqb_eq in E4. cbn [orb]. tauto. }
    apply String.eqb_neq in E3, E4. cbn [orb]. split; [discriminate|tauto]. }
  split; [|split; [exact Hb|split; [exact Hw|]]].
  - unfold ParseColor. now rewrite lower_idempotent.
  - intros H1 H5. destruct (ParseColor s) as [[|]|]; [exfalso|exfalso|reflexivity].
    + destruct (proj1 Hb eq_refl) as [E|E]; apply (f_equal String.length) in E;
        rewrite lower_length in E; cbn in E; congruence.
    + destruct (proj1 Hw eq_refl) as [E|E]; apply (f_equal String.length) in E;
        rewrite lower_length in E; cbn in E; congruence.
Qed.

(** ** Tokens and request ids *)

Lemma read_token_spaces (s : string) :
  all_of isspace s = true -> read_token s = ("", "").
Proof.
  unfold read_token. induction s as [|c s IH]; cbn [all_of skip_space]; [reflexivity|].
  intros H. apply andb_true_iff in H as [Hc Hs]. rewrite Hc. now apply IH.
Qed.

Lemma skip_blank_spaces (s : string) :
  all_of isspace s = true ->
  match skip_blank s with
  | Some t => all_of isspace t = true
  | None => True
  end.
Proof.
  induction s as [|c s IH]; cbn [all_of skip_blank]; [trivial|].
  intros H. apply andb_true_iff in H as H'. destruct H' as [Hc Hs].
  destruct (is_blank c); [now apply IH|exact H].
Qed.

Lemma getline_spaces (s : string) :
  all_of isspace s = true -> all_of isspace (getline s) = true.
Proof.
  induction s as [|c s IH]; cbn [all_of getline]; [reflexivity|].
  intros H. apply andb_true_iff in H as [Hc Hs].
  destruct (code c =? 10); [reflexivity|]. cbn [all_of]. now rewrite Hc, IH.
Qed.

Lemma isdigit_code (c : ascii) : isdigit c = true <-> 48 <= code c <= 57.
Proof.
  unfold isdigit. change (code "0"%char) with 48. change (code "9"%char) with 57.
  rewrite andb_true_iff, !Z.leb_le. tauto.
Qed.

Lemma digit_not_space (c : ascii) : isdigit c = true -> isspace c = false.
Proof.
  intros H. apply isdigit_code in H. unfold isspace.
  apply orb_false_iff. split.
  - apply Z.eqb_neq. lia.
  - apply andb_false_iff. right. apply Z.leb_gt. lia.
Qed.

Lemma digit_not_blank (c : ascii) : isdigit c = true -> is_blank c = false.
Proof.
  intros H. apply isdigit_code in H. unfold is_blank.
  repeat (apply orb_false_iff; split); apply Z.eqb_neq; lia.
Qed.

Lemma digits_value_grows (s : string) (acc : Z) :
  all_of isdigit s = true -> 0 <= acc -> acc <= digits_value acc s.
Proof.
  revert acc. induction s as [|c s IH]; intros acc H Hacc; cbn [digits_value]; [lia|].
  cbn [all_of] in H. apply andb_true_iff in H as [Hc Hs].
  apply isdigit_code in Hc. change (code "0"%char) with 48.
  specialize (IH (acc * 10 + (code c - 48)) Hs). lia.
Qed.

(** X4.  A line of white space only (spaces, tabs, carriage returns, form
    feeds, ...), the empty line included, gets no reply and leaves the
    state as it was. *)
Theorem blank_line_is_ignored {BL : BoardLib} {EL : EvalLib}
    (evals : list EvalType) (st : GameState) (line : string) :
  all_of isspace line = true ->
  process_line evals st line = Continue "" st.
Proof.
  intros H. unfold process_line. destruct (is_empty line); [reflexivity|].
  assert (Hc : all_of isspace
                 (match skip_blank line with Some c => c | None => line end) = true).
  { pose proof (skip_blank_spaces line H) as Hs.
    destruct (skip_blank line); assumption. }
  unfold extract_id. rewrite (read_token_spaces _ Hc). cbn [is_empty negb andb].
  now rewrite (read_token_spaces _ Hc).
Qed.

(** X5.  A line that holds a numeric id (a run of digits of value at most
    INT_MAX) and then white space only gets no reply either. *)
Theorem id_alone_is_ignored {BL : BoardLib} {EL : EvalLib}
    (evals : list EvalType) (st : GameState) (line tok rest : string) :
  read_token (match skip_blank line with Some c => c | None => line end)
  = (tok, rest) ->
  is_empty tok = false ->
  all_of isdigit tok = true ->
  digits_value 0 tok <= INT_MAX ->
  all_of isspace rest = true ->
  process_line evals st line = Continue "" st.
Proof.
  intros Ht Hne Hd Hv Hrest. unfold process_line.
  destruct (is_empty line); [reflexivity|].
  unfold extract_id, stoi. rewrite Ht, Hne, Hd. cbn [negb andb].
  apply Z.leb_le in Hv as ->.
  pose proof (getline_spaces rest Hrest) as Hg.
  pose proof (skip_blank_spaces _ Hg) as Hs.
  destruct (skip_blank (getline rest)) as [c|].
  - now rewrite (read_token_spaces c Hs).
  - reflexivity.
Qed.

(** X6.  The id handed to a handler is -1 (no id) or a value in
    0..INT_MAX; when the first token of the line is not a run of digits
    (as in "-5 quit"), there is no id and the whole line is the command. *)
Theorem extracted_id_range (cmdline c : string) (id : Z) :
  extract_id cmdline = Some (id, c) ->
  (id = -1 /\ c = cmdline /\ all_of isdigit (fst (read_token cmdline))
                             && negb (is_empty (fst (read_token cmdline))) = false)
  \/ (0 <= id <= INT_MAX /\ all_of isdigit (fst (read_token cmdline)) = true).
Proof.
  unfold extract_id, stoi. destruct (read_token cmdline) as [tok ss]. cbn [fst].
  destruct (is_empty tok) eqn:He; cbn [negb andb].
  { intros [= <- <-]. left. now rewrite andb_false_r. }
  destruct (all_of isdigit tok) eqn:Hd.
  - destruct (digits_value 0 tok <=? INT_MAX) eqn:Hv; [|discriminate].
    apply Z.leb_le in Hv.
    pose proof (digits_value_grows tok 0 Hd ltac:(lia)) as Hpos.
    intros H. right.
    destruct (skip_blank (getline ss)); injection H as <- _; auto.
  - intros [= <- <-]. left. auto.
Qed.

(** ** Ids written in decimal *)

Lemma digits_value_uint_acc (d : Decimal.uint) (acc : positive) :
  digits_value (Zpos acc) (NilEmpty.string_of_uint d)
  = Zpos (Pos.of_uint_acc d acc).
Proof.
  revert acc.
  induction d as [|d IH|d IH|d IH|d IH|d IH|d IH|d IH|d IH|d IH|d IH];
    intros acc; cbn [NilEmpty.string_of_uint digits_value Pos.of_uint_acc];
    [reflexivity|..]; rewrite <- IH; f_equal; vm_compute (code _); lia.
Qed.

Lemma digits_value_uint (d : Decimal.uint) :
  digits_value 0 (NilEmpty.string_of_uint d) = Z.of_N (Pos.of_uint d).
Proof.
  induction d as [|d IH|d IH|d IH|d IH|d IH|d IH|d IH|d IH|d IH|d IH];
    cbn [NilEmpty.string_of_uint digits_value Pos.of_uint];
    [reflexivity|exact IH|..]; apply (digits_value_uint_acc d).
Qed.

Lemma all_digits_uint (d : Decimal.uint) :
  all_of isdigit (NilEmpty.string_of_uint d) = true.
Proof.
  induction d; cbn [NilEmpty.string_of_uint all_of]; [reflexivity|..];
    rewrite IHd; reflexivity.
Qed.

Lemma to_string_nonneg (n : Z) :
  0 <= n ->
  all_of isdigit (to_string n) = true
  /\ is_empty (to_string n) = false
  /\ digits_value 0 (to_string n) = n.
Proof.
  intros Hn. destruct n as [|p|p]; [repeat split; reflexivity| |lia].
  unfold to_string. cbn [Z.to_int NilZero.string_of_int].
  pose proof (Unsigned.to_uint_nonnil p) as Hnil.
  assert (Hs : NilZero.string_of_uint (Pos.to_uint p)
               = NilEmpty.string_of_uint (Pos.to_uint p)).
  { unfold NilZero.string_of_uint. destruct (Pos.to_uint p); congruence. }
  rewrite Hs. split; [apply all_digits_uint|split].
  - destruct (Pos.to_uint p); [congruence|reflexivity..].
  - rewrite digits_value_uint, DecimalPos.Unsigned.of_to. reflexivity.
Qed.

Lemma take_word_digits (tok rest : string) :
  all_of isdigit tok = true ->
  take_word (tok ++ String " " rest) = (tok, String " " rest).
Proof.
  induction tok as [|c tok IH]; cbn [all_of append take_word]; [reflexivity|].
  intros H. apply andb_true_iff in H as [Hc Ht].
  now rewrite (digit_not_space c Hc), (IH Ht).
Qed.

Lemma read_token_digits (tok rest : string) :
  all_of isdigit tok = true -> is_empty tok = false ->
  read_token (tok ++ String " " rest) = (tok, String " " rest).
Proof.
  intros Hd Hne. unfold read_token.
  destruct tok as [|c tok]; [discriminate Hne|].
  pose proof Hd as Hd'. cbn [all_of] in Hd'. apply andb_true_iff in Hd' as [Hc _].
  replace (skip_space (String c tok ++ String " " rest))
    with (String c tok ++ String " " rest)
    by (cbn [append skip_space]; now rewrite (digit_not_space c Hc)).
  now apply take_word_digits.
Qed.

Lemma blank_is_space (c : ascii) : is_blank c = true -> isspace c = true.
Proof.
  unfold is_blank, isspace. rewrite !orb_true_iff, andb_true_iff, !Z.eqb_eq, !Z.leb_le.
  lia.
Qed.

Lemma skip_blank_none (s : string) :
  skip_blank s = None -> all_of isspace s = true.
Proof.
  induction s as [|c s IH]; cbn [skip_blank all_of]; [reflexivity|].
  destruct (is_blank c) eqn:E; [|discriminate].
  intros H. now rewrite (blank_is_space c E), IH.
Qed.

Lemma extract_id_absent (cmdline c : string) :
  extract_id cmdline = Some (-1, c) -> c = cmdline.
Proof.
  unfold extract_id, stoi. destruct (read_token cmdline) as [tok ss].
  destruct (negb (is_empty tok) && all_of isdigit tok) eqn:E.
  - apply andb_true_iff in E as [_ Hd].
    pose proof (digits_value_grows tok 0 Hd ltac:(lia)) as Hpos.
    destruct (digits_value 0 tok <=? INT_MAX); [|discriminate].
    intros H. destruct (skip_blank (getline ss)); injection H as H _; lia.
  - now intros [= <-].
Qed.

Lemma dispatch_uniform_in_id {BL : BoardLib} {EL : EvalLib}
    (evals : list EvalType) (st : GameState) (verb iss : string) :
  (exists p st', forall id, dispatch evals st id verb iss = Continue (Ok id p) st')
  \/ (exists m, forall id, dispatch evals st id verb iss = Continue (Err id m) st)
  \/ (forall id, dispatch evals st id verb iss = Break (Ok id "") st)
  \/ (forall id, dispatch evals st id verb iss = Undefined).
Proof.
  assert (Hok : forall (f : Z -> Outcome) p s,
             (forall id, f id = Continue (Ok id p) s) ->
             (exists p st', forall id, f id = Continue (Ok id p) st')
             \/ (exists m, forall id, f id = Continue (Err id m) st)
             \/ (forall id, f id = Break (Ok id "") st)
             \/ (forall id, f id = Undefined)).
  { intros f p s H. left. now exists p, s. }
  assert (Herr : forall (f : Z -> Outcome) m,
             (forall id, f id = Continue (Err id m) st) ->
             (exists p st', forall id, f id = Continue (Ok id p) st')
             \/ (exists m, forall id, f id = Continue (Err id m) st)
             \/ (forall id, f id = Break (Ok id "") st)
             \/ (forall id, f id = Undefined)).
  { intros f m H. right; left. now exists m. }
  unfold dispatch.
  destruct ((verb =? "quit") || (verb =? "exit"))%string.
  { right; right; left. reflexivity. }
  destruct (verb =? "clear_board")%string.
  { eapply Hok. reflexivity. }
  destruct (verb =? "play")%string.
  { unfold play. destruct (read_token iss) as [color_s iss1].
    destruct (read_token iss1) as [coord_s iss2].
    destruct (ParseColor color_s) as [is_black|]; [|eapply Herr; reflexivity].
    destruct (ParseCoord coord_s 0 false) as [[sq is_pass]|];
      [|eapply Herr; reflexivity].
    destruct (negb (Bool.eqb is_black (stm_is_black st)));
      [eapply Herr; reflexivity|].
    destruct is_pass; [eapply Hok; reflexivity|].
    destruct (ApplyMove st sq) as [[[|] s]|].
    - eapply Hok. reflexivity.
    - eapply Herr. reflexivity.
    - right; right; right. reflexivity. }
  destruct (verb =? "genmove")%string.
  { unfold genmove. destruct (read_token iss) as [color_s iss1].
    destruct (ParseColor color_s) as [is_black|]; [|eapply Herr; reflexivity].
    destruct evals as [|e evals']; [eapply Herr; reflexivity|].
    destruct (negb (Bool.eqb is_black (stm_is_black st)));
      [eapply Herr; reflexivity|].
    destruct (GetMoves (Player (board st)) (Opponent (board st)) =? 0);
      [eapply Hok; reflexivity|].
    rewrite select_loop_64 by apply GetMoves_range.
    destruct (fold_left _ _ _) as [bm bs].
    destruct (ApplyMove st bm) as [[flag s]|].
    - eapply Hok. reflexivity.
    - right; right; right. reflexivity. }
  destruct (verb =? "final_score")%string; [|eapply Herr; reflexivity].
  unfold final_score. destruct (negb (IsOver st)); [eapply Herr; reflexivity|].
  destruct (CountDiscsAbs st). eapply Hok. reflexivity.
Qed.

Lemma dispatch_carries_id {BL : BoardLib} {EL : EvalLib}
    (evals : list EvalType) (st : GameState) (n : Z) (verb iss : string) :
  0 <= n ->
  carries_id n (dispatch evals st (-1) verb iss) (dispatch evals st n verb iss).
Proof.
  intros Hn.
  assert (Hge : (n >=? 0) = true) by (rewrite Z.geb_leb; apply Z.leb_le; lia).
  unfold carries_id.
  destruct (dispatch_uniform_in_id evals st verb iss)
    as [(p & st' & H)|[(m & H)|[H|H]]]; rewrite !H.
  - left. exists p, st'. unfold Ok. rewrite Hge. cbn [Z.geb Z.compare].
    destruct (is_empty p); split; reflexivity.
  - right; left. exists m, st. unfold Err. rewrite Hge. split; reflexivity.
  - right; right; left. exists st. unfold Ok. rewrite Hge. split; reflexivity.
  - right; right; right. split; reflexivity.
Qed.

(** X7.  Writing an id n in 0..INT_MAX in decimal before a request (one
    space between, no line feed in the request) gives the same request
    with id n: the handler sees the same verb and arguments and n instead
    of -1, and the reply is the reply of the request without id with n
    written after its "=" or "?" ([carries_id]).  In particular [stoi]
    reads back what [to_string] writes. *)
Theorem id_prefix_is_read_back {BL : BoardLib} {EL : EvalLib}
    (evals : list EvalType) (st : GameState) (n : Z) (body verb iss : string) :
  0 <= n <= INT_MAX ->
  getline body = body ->
  request body (-1) verb iss ->
  stoi (to_string n) = Some n
  /\ request (to_string n ++ " " ++ body) n verb iss
  /\ process_line evals st body = dispatch evals st (-1) verb iss
  /\ process_line evals st (to_string n ++ " " ++ body)
     = dispatch evals st n verb iss
  /\ carries_id n (process_line evals st body)
       (process_line evals st (to_string n ++ " " ++ body)).
Proof.
  intros Hn Hline Hreq.
  destruct (to_string_nonneg n ltac:(lia)) as (Hd & Hne & Hv).
  assert (Hstoi : stoi (to_string n) = Some n).
  { unfold stoi. rewrite Hv. now replace (n <=? INT_MAX) with true
      by (symmetry; apply Z.leb_le; lia). }
  assert (Hreq' : request (to_string n ++ " " ++ body) n verb iss).
  { destruct Hreq as (_ & cmdline & cmd & Hx & Hr & Hc & ->).
    apply extract_id_absent in Hx as Hcl.
    assert (Hsb : skip_blank body = Some cmdline).
    { destruct (skip_blank body) as [c|] eqn:E; [now subst|].
      subst cmdline. apply skip_blank_none in E.
      rewrite (read_token_spaces body E) in Hr. injection Hr as <- _.
      discriminate Hc. }
    destruct (to_string n) as [|d ds] eqn:Ets; [discriminate Hne|].
    pose proof Hd as Hd'. cbn [all_of] in Hd'. apply andb_true_iff in Hd' as [Hd0 _].
    split; [reflexivity|]. exists cmdline, cmd.
    split; [|auto].
    replace (skip_blank (String d ds ++ " " ++ body))
      with (Some (String d ds ++ " " ++ body))
      by (cbn [append skip_blank]; now rewrite (digit_not_blank d Hd0)).
    unfold extract_id.
    change (String d ds ++ " " ++ body) with (String d ds ++ String " " body).
    rewrite read_token_digits by assumption.
    rewrite Hne, Hd, Hstoi. cbn [negb andb getline].
    change (code " " =? 10) with false. cbv iota.
    rewrite Hline. cbn [skip_blank].
    change (is_blank " ") with true. cbv iota. now rewrite Hsb. }
  split; [exact Hstoi|]. split; [exact Hreq'|].
  rewrite (process_line_request _ _ _ _ _ _ Hreq).
  rewrite (process_line_request _ _ _ _ _ _ Hreq').
  split; [reflexivity|]. split; [reflexivity|].
  apply dispatch_carries_id. lia.
Qed.

(** ** Sessions *)

Section Sessions.

Context {BL : BoardLib} {EL : EvalLib}.

Lemma request_loop_app (evals : list EvalType) (st st1 : GameState)
    (pre more : list string) (outs : list string) :
  request_loop evals st pre = (outs, Eof st1) ->
  request_loop evals st (pre ++ more)
  = ((outs ++ fst (request_loop evals st1 more))%list,
     snd (request_loop evals st1 more)).
Proof.
  revert st outs. induction pre as [|l pre IH]; intros st outs H.
  - cbn in H. injection H as <- <-. cbn [app].
    now destruct (request_loop evals st more).
  - cbn [app request_loop] in *.
    destruct (process_line evals st l) as [out st'| | | |]; try discriminate H.
    destruct (request_loop evals st' pre) as [outs' e] eqn:E.
    injection H as <- ->. rewrite (IH st' outs' E).
    now destruct (request_loop evals st1 more).
Qed.

Lemma request_loop_stopped (evals : list EvalType) (st : GameState)
    (pre more : list string) :
  (forall st1, snd (request_loop evals st pre) <> Eof st1) ->
  request_loop evals st (pre ++ more) = request_loop evals st pre.
Proof.
  revert st. induction pre as [|l pre IH]; intros st H.
  - cbn in H. now destruct (H st).
  - cbn [app request_loop] in *.
    destruct (process_line evals st l) as [out st'| | | |]; try reflexivity.
    destruct (request_loop evals st' pre) as [outs' e] eqn:E.
    rewrite IH; [now rewrite E|]. rewrite E. exact H.
Qed.

(** X8.  The lines of a session are handled one after the other: when the
    loop is still running after a first batch of lines, a session that
    goes on with more lines writes the replies of the first batch and then
    what the further lines give from the state reached; once the loop has
    ended on [quit] (or on the escaping exception), further lines add
    nothing. *)
Theorem session_composes (evals : list EvalType) (st : GameState)
    (pre more : list string) :
  (forall outs st1,
     request_loop evals st pre = (outs, Eof st1) ->
     request_loop evals st (pre ++ more)
     = ((outs ++ fst (request_loop evals st1 more))%list,
        snd (request_loop evals st1 more)))
  /\ ((forall st1, snd (request_loop evals st pre) <> Eof st1) ->
      request_loop evals st (pre ++ more) = request_loop evals st pre).
Proof.
  split.
  - intros outs st1 H. now apply request_loop_app.
  - intros H. now apply request_loop_stopped.
Qed.

(** X9.  [quit] and [exit] are acknowledged with an empty success reply
    and end the loop with the state untouched: whatever lines follow,
    nothing more is written. *)
Theorem quit_ends_the_session (evals : list EvalType) (st st1 : GameState)
    (pre rest : list string) (outs : list string) (line : string) (id : Z)
    (verb iss : string) :
  request_loop evals st pre = (outs, Eof st1) ->
  request line id verb iss ->
  verb = "quit" \/ verb = "exit" ->
  request_loop evals st (pre ++ line :: rest)
  = ((outs ++ [Ok id ""])%list, Quit st1).
Proof.
  intros Hpre Hreq Hv. rewrite (request_loop_app _ _ _ _ _ _ Hpre).
  cbn [request_loop]. rewrite (process_line_request _ _ _ _ _ _ Hreq).
  destruct Hv as [-> | ->]; reflexivity.
Qed.

(** X10.  [clear_board] always succeeds and puts the game in the state
    [main] starts from, whatever the state before: the start board with
    black to move.  Doing it twice is the same as doing it once. *)
Theorem clear_board_resets (evals : list EvalType) (st : GameState)
    (args : list string) (line : string) (id : Z) (iss : string) :
  request line id "clear_board" iss ->
  process_line evals st line = Continue (Ok id "") (mkState StartBoard true)
  /\ snd (request_loop evals st [line; line]) = snd (request_loop evals st [line])
  /\ snd (main args []) = Eof (mkState StartBoard true).
Proof.
  intros Hreq.
  assert (H : forall s, process_line evals s line
                        = Continue (Ok id "") (mkState StartBoard true)).
  { intros s. now rewrite (process_line_request _ _ _ _ _ _ Hreq). }
  split; [apply H|]. split; [|reflexivity].
  cbn [request_loop]. now rewrite !H.
Qed.

(** X11.  A verb other than quit, exit, clear_board, play, genmove and
    final_score (compared in lower case) is answered "unknown command";
    the state stays as it was. *)
Theorem unknown_verb_is_reported (evals : list EvalType) (st : GameState)
    (line : string) (id : Z) (verb iss : string) :
  request line id verb iss ->
  ~ In verb ["quit"; "exit"; "clear_board"; "play"; "genmove"; "final_score"] ->
  process_line evals st line = Continue (Err id "unknown command") st.
Proof.
  intros Hreq Hv. rewrite (process_line_request _ _ _ _ _ _ Hreq).
  unfold dispatch. cbn [In] in Hv.
  repeat match goal with
         | |- context [String.eqb verb ?s] =>
             replace (String.eqb verb s) with false
               by (symmetry; apply String.eqb_neq; intros ->; apply Hv; tauto)
         end.
  reflexivity.
Qed.

(** X12.  [play <colour> pass] by the side to move is always accepted and
    swaps the sides: the handler does not look at the legal moves, so a
    pass goes through also when the side to move could play. *)
Theorem play_pass_is_unchecked (evals : list EvalType) (st : GameState)
    (line : string) (id : Z) (iss color_s iss1 coord_s iss2 : string) :
  request line id "play" iss ->
  read_token iss = (color_s, iss1) ->
  read_token iss1 = (coord_s, iss2) ->
  ParseColor color_s = Some (stm_is_black st) ->
  coord_s = "pass" \/ coord_s = "PASS" ->
  process_line evals st line = Continue (Ok id "") (ApplyPass st).
Proof.
  intros Hreq Hc Hm Hcol Hpass.
  rewrite (process_line_request _ _ _ _ _ _ Hreq).
  unfold dispatch. cbn [String.eqb Ascii.eqb Bool.eqb orb].
  unfold play. rewrite Hc, Hm, Hcol, Bool.eqb_reflx.
  rewrite (ParseCoord_pass_literal coord_s 0 false) by tauto. reflexivity.
Qed.

(** X13.  [play <colour> <coordinate>] by the side to move is accepted
    exactly when the square is a legal move: then the reply is an empty
    success, the board is the one after the move and the turn passes; on
    any other square the reply is "illegal move" and nothing changes. *)
Theorem play_accepts_legal_squares (evals : list EvalType) (st : GameState)
    (line : string) (id : Z) (iss color_s iss1 coord_s iss2 : string) (sq : Z) :
  request line id "play" iss ->
  read_token iss = (color_s, iss1) ->
  read_token iss1 = (coord_s, iss2) ->
  ParseColor color_s = Some (stm_is_black st) ->
  ParseCoord coord_s 0 false = Some (sq, false) ->
  (legal (board st) sq ->
   process_line evals st line
   = Continue (Ok id "")
       (mkState (PlayMove (board st)
                   (GetFlip sq (Player (board st)) (Opponent (board st))))
                (negb (stm_is_black st))))
  /\ (~ legal (board st) sq ->
      process_line evals st line = Continue (Err id "illegal move") st).
Proof.
  intros Hreq Hc Hm Hcol Hsq.
  rewrite (process_line_request _ _ _ _ _ _ Hreq).
  unfold dispatch. cbn [String.eqb Ascii.eqb Bool.eqb orb].
  unfold play. rewrite Hc, Hm, Hcol, Hsq, Bool.eqb_reflx. cbn [negb].
  apply ParseCoord_square in Hsq. split.
  - intros [_ Hbit]. now rewrite ApplyMove_legal.
  - intros Hnot. unfold ApplyMove.
    replace ((0 <=? sq) && (sq <? 64)) with true
      by (symmetry; apply andb_true_iff; split; [apply Z.leb_le|apply Z.ltb_lt]; lia).
    rewrite legality_test by lia.
    destruct (Z.testbit _ sq) eqn:Hbit; [|reflexivity].
    exfalso. apply Hnot. split; [lia|exact Hbit].
Qed.

(** X14.  With a table loaded, [genmove] for the colour that is not to
    move is answered "wrong color to play" and changes nothing, whether or
    not that side or the other has a move (no PASS is answered). *)
Theorem genmove_checks_turn (evals : list EvalType) (st : GameState)
    (line : string) (id : Z) (iss color_s iss1 : string) (is_black : bool) :
  request line id "genmove" iss ->
  read_token iss = (color_s, iss1) ->
  ParseColor color_s = Some is_black ->
  evals <> [] ->
  is_black <> stm_is_black st ->
  process_line evals st line = Continue (Err id "wrong color to play") st.
Proof.
  intros Hreq Hc Hcol Hev Hturn.
  rewrite (process_line_request _ _ _ _ _ _ Hreq).
  unfold dispatch. cbn [String.eqb Ascii.eqb Bool.eqb orb].
  unfold genmove. rewrite Hc, Hcol.
  destruct evals as [|e evals']; [contradiction|].
  replace (Bool.eqb is_black (stm_is_black st)) with false; [reflexivity|].
  symmetry. now apply Bool.eqb_false_iff.
Qed.

End Sessions.

(** ** The selection loop and the moves, again *)

Lemma SqToCoord_parses (sq sq0 : Z) (p0 : bool) :
  0 <= sq < 64 -> ParseCoord (SqToCoord sq) sq0 p0 = Some (sq, false).
Proof.
  intros Hsq. unfold SqToCoord.
  rewrite Z.rem_mod_nonneg, Z.quot_div_nonneg by lia.
  pose proof (Z.mod_pos_bound sq 8 ltac:(lia)) as Hx.
  assert (Hy : 0 <= sq / 8 < 8).
  { split; [apply Z.div_pos; lia|apply Z.div_lt_upper_bound; lia]. }
  pose proof (Z.div_mod sq 8 ltac:(lia)) as Hdm.
  change (code "a"%char) with 97. change (code "1"%char) with 49.
  assert (Hf : code (chr (97 + sq mod 8)) = 97 + sq mod 8) by (apply code_chr; lia).
  assert (Hr : code (chr (49 + sq / 8)) = 49 + sq / 8) by (apply code_chr; lia).
  rewrite ParseCoord_letter_digit.
  - rewrite tolower_lowercase by (rewrite Hf; change (code "a"%char) with 97; lia).
    change (code "a"%char) with 97. change (code "1"%char) with 49.
    rewrite Hf, Hr. f_equal. f_equal. lia.
  - left. rewrite Hf. change (code "a"%char) with 97.
    change (code "h"%char) with 104. lia.
  - unfold rank_digit. rewrite Hr. change (code "1"%char) with 49.
    change (code "8"%char) with 56. lia.
Qed.

Lemma popcount_pos_length (p : positive) :
  popcount_pos p = Z.of_nat (length (bits_pos p)).
Proof.
  induction p as [q IH|q IH|]; cbn [popcount_pos bits_pos length];
    rewrite ?length_map; lia.
Qed.

Lemma popcountll_length (z : Z) : popcountll z = Z.of_nat (length (set_bits z)).
Proof.
  destruct z; cbn [popcountll set_bits length]; try reflexivity.
  apply popcount_pos_length.
Qed.

Lemma popcountll_range (z : Z) : 0 <= z < 2 ^ 64 -> 0 <= popcountll z <= 64.
Proof.
  intros Hz. rewrite popcountll_length.
  pose proof (set_bits_length 64 z Hz). lia.
Qed.

Section Moves.

Context {BL : BoardLib} {EL : EvalLib}.

Lemma select_loop_short (evals : list EvalType) (b : Board) (fuel : nat)
    (rem bm bs : Z) :
  0 <= rem < 2 ^ 64 ->
  (fuel < length (set_bits rem))%nat ->
  select_loop fuel evals b rem bm bs = None.
Proof.
  revert rem bm bs. induction fuel as [|fuel IH]; intros rem bm bs Hrem Hlen.
  - destruct (Z.eq_dec rem 0) as [->|Hne]; [cbn in Hlen; lia|].
    cbn [select_loop]. now apply Z.eqb_neq in Hne as ->.
  - destruct (Z.eq_dec rem 0) as [->|Hne]; [cbn in Hlen; lia|].
    rewrite select_loop_step by lia.
    assert (Hlow : 0 < 2 ^ ctzll rem <= rem).
    { destruct rem as [|p|p]; try lia. apply pow2_ctz_pos. }
    rewrite (set_bits_step rem) in Hlen by lia. cbn [length] in Hlen.
    apply IH; lia.
Qed.

(** X15.  The selection loop runs its body once for every set bit of the
    mask, so once per legal move, whatever the evaluator answers: on a
    64-bit mask it is over within n iterations exactly when the mask has at
    most n set bits (its [popcountll]), which is never more than 64. *)
Theorem loop_runs_once_per_move (evals : list EvalType) (b : Board)
    (rem : Z) :
  0 <= rem < 2 ^ 64 ->
  popcountll rem = Z.of_nat (length (set_bits rem))
  /\ popcountll rem <= 64
  /\ forall fuel bm bs,
       select_loop fuel evals b rem bm bs <> None
       <-> popcountll rem <= Z.of_nat fuel.
Proof.
  intros Hrem. split; [apply popcountll_length|].
  split; [now apply popcountll_range|].
  intros fuel bm bs. rewrite popcountll_length.
  destruct (Nat.le_gt_cases (length (set_bits rem)) fuel) as [Hle|Hgt].
  - rewrite select_loop_fold by assumption. split; [lia|discriminate].
  - rewrite select_loop_short by assumption. split; [congruence|lia].
Qed.

(** X16.  Whatever the evaluator, the loop ends with the highest of the
    scores it computed and of the initial -1000000000: no legal move
    scores more than [best_score], and [best_move] is either still -1
    (nothing scored above -1000000000) or the lowest legal square whose
    score is [best_score]. *)
Theorem scan_keeps_the_maximum (evals : list EvalType) (b : Board) :
  exists best_move best_score,
    select_loop 64 evals b (GetMoves (Player b) (Opponent b)) (-1) (-1000000000)
    = Some (best_move, best_score)
    /\ -1000000000 <= best_score
    /\ (forall mv, legal b mv -> move_score evals b mv <= best_score)
    /\ ((best_move = -1 /\ best_score = -1000000000)
        \/ (legal b best_move /\ best_move < 64
            /\ best_score = move_score evals b best_move
            /\ -1000000000 < best_score
            /\ forall mv, legal b mv -> mv < best_move ->
                 move_score evals b mv < best_score)).
Proof.
  rewrite select_loop_64 by apply GetMoves_range.
  set (l := set_bits (GetMoves (Player b) (Opponent b))).
  destruct (fold_consider_cases evals b l (-1) (-1000000000))
    as [[Hr Hall]|(l1 & l2 & Hl & Hs & Hlt & H1 & H2)].
  - rewrite Hr. exists (-1), (-1000000000). split; [reflexivity|].
    split; [lia|]. split; [|now left].
    intros mv Hmv. apply Hall. now apply legal_in_set_bits.
  - destruct (fold_left (consider evals b) l (-1, -1000000000)) as [bm bs].
    cbn [fst snd] in *. exists bm, bs. split; [reflexivity|].
    assert (Hbm : legal b bm).
    { apply legal_in_set_bits. fold l. rewrite Hl. apply in_or_app. right. now left. }
    assert (Hsplit : forall mv, legal b mv -> In mv l1 \/ mv = bm \/ In mv l2).
    { intros mv Hmv. apply legal_in_set_bits in Hmv. fold l in Hmv.
      rewrite Hl in Hmv. apply in_app_or in Hmv as [H|[H|H]]; auto. }
    split; [lia|]. split.
    + intros mv Hmv. destruct (Hsplit mv Hmv) as [H|[->|H]].
      * apply H1 in H. lia.
      * lia.
      * now apply H2.
    + right. split; [exact Hbm|]. split; [exact (legal_below_64 b bm Hbm)|].
      split; [exact Hs|]. split; [exact Hlt|].
      intros mv Hmv Hless. destruct (Hsplit mv Hmv) as [H|[->|H]].
      * now apply H1.
      * lia.
      * pose proof (set_bits_sorted (GetMoves (Player b) (Opponent b))) as Hsorted.
        fold l in Hsorted. rewrite Hl in Hsorted.
        pose proof (sorted_after _ _ _ _ Hsorted H). lia.
Qed.

Lemma ApplyMove_sentinel (st : GameState) : ApplyMove st (-1) = None.
Proof. reflexivity. Qed.

(** X17.  A line runs into the undefined shift exactly when it is a
    [genmove] for the side to move, with a table loaded and a legal move on
    the board, and no legal move gets a score above -1000000000; no other
    line, and no [play], ever does. *)
Theorem undefined_exactly_below_sentinel (evals : list EvalType)
    (st : GameState) (line : string) :
  process_line evals st line = Undefined <->
  exists id iss,
    request line id "genmove" iss
    /\ ParseColor (fst (read_token iss)) = Some (stm_is_black st)
    /\ evals <> []
    /\ GetMoves (Player (board st)) (Opponent (board st)) <> 0
    /\ forall mv, legal (board st) mv ->
         move_score evals (board st) mv <= -1000000000.
Proof.
  split.
  - intros H.
    destruct (process_line_cases evals st line) as [E|[E|(id & verb & iss & Hreq)]];
      [rewrite E in H; discriminate H|rewrite E in H; discriminate H|].
    rewrite (process_line_request _ _ _ _ _ _ Hreq) in H. unfold dispatch in H.
    destruct ((verb =? "quit") || (verb =? "exit"))%string; [discriminate H|].
    destruct (verb =? "clear_board")%string; [discriminate H|].
    destruct (verb =? "play")%string.
    { destruct (play_outcome st id iss) as (o & s & E & _). rewrite E in H.
      discriminate H. }
    destruct (verb =? "genmove")%string eqn:Egm.
    2:{ destruct (verb =? "final_score")%string; [|discriminate H].
        destruct (final_score_outcome st id) as [o E]. rewrite E in H.
        discriminate H. }
    apply String.eqb_eq in Egm. subst verb. exists id, iss.
    split; [exact Hreq|]. unfold genmove in H.
    destruct (read_token iss) as [color_s iss1]. cbn [fst].
    destruct (ParseColor color_s) as [is_black|]; [|discriminate H].
    destruct evals as [|e evals']; [discriminate H|].
    destruct (Bool.eqb is_black (stm_is_black st)) eqn:Ecol; [|discriminate H].
    apply Bool.eqb_prop in Ecol. subst is_black. cbn [negb] in H.
    destruct (GetMoves (Player (board st)) (Opponent (board st)) =? 0) eqn:Em;
      [discriminate H|].
    apply Z.eqb_neq in Em. split; [reflexivity|]. split; [discriminate|].
    split; [exact Em|].
    rewrite select_loop_64 in H by apply GetMoves_range.
    destruct (fold_consider_cases (e :: evals') (board st)
                (set_bits (GetMoves (Player (board st)) (Opponent (board st))))
                (-1) (-1000000000))
      as [[_ Hall]|(l1 & l2 & Hl & _)].
    + intros mv Hmv. apply Hall. now apply legal_in_set_bits.
    + destruct (fold_left _ _ _) as [bm bs]. cbn [fst] in Hl.
      assert (Hbm : legal (board st) bm).
      { apply legal_in_set_bits. rewrite Hl. apply in_or_app. right. now left. }
      rewrite ApplyMove_legal in H;
        [discriminate H
        |split; [apply Hbm|exact (legal_below_64 _ _ Hbm)]
        |apply Hbm].
  - intros (id & iss & Hreq & Hcol & Hev & Hm & Hall).
    rewrite (process_line_request _ _ _ _ _ _ Hreq).
    unfold dispatch. cbn [String.eqb Ascii.eqb Bool.eqb orb].
    unfold genmove. destruct (read_token iss) as [color_s iss1]. cbn [fst] in Hcol.
    rewrite Hcol, Bool.eqb_reflx. cbn [negb].
    destruct evals as [|e evals']; [contradiction|].
    apply Z.eqb_neq in Hm as ->.
    rewrite select_loop_64 by apply GetMoves_range.
    destruct (fold_consider_cases (e :: evals') (board st)
                (set_bits (GetMoves (Player (board st)) (Opponent (board st))))
                (-1) (-1000000000))
      as [[Hr _]|(l1 & l2 & Hl & Hs & Hlt & _)].
    + rewrite Hr. reflexivity.
    + exfalso. destruct (fold_left _ _ _) as [bm bs]. cbn [fst snd] in *.
      assert (Hbm : legal (board st) bm).
      { apply legal_in_set_bits. rewrite Hl. apply in_or_app. right. now left. }
      specialize (Hall bm Hbm). lia.
Qed.

Lemma play_replies (st : GameState) (id : Z) (iss : string) :
  (exists msg, play st id iss = Continue (Err id msg) st)
  \/ (exists st',
        play st id iss = Continue (Ok id "") st'
        /\ ParseColor (fst (read_token iss)) = Some (stm_is_black st)
        /\ stm_is_black st' = negb (stm_is_black st)
        /\ (st' = ApplyPass st \/ exists mv, ApplyMove st mv = Some (true, st'))).
Proof.
  unfold play. destruct (read_token iss) as [color_s iss1]. cbn [fst].
  destruct (read_token iss1) as [coord_s iss2].
  destruct (ParseColor color_s) as [is_black|]; [|left; eexists; reflexivity].
  destruct (ParseCoord coord_s 0 false) as [[sq is_pass]|] eqn:Ec;
    [|left; eexists; reflexivity].
  destruct (Bool.eqb is_black (stm_is_black st)) eqn:Ecol;
    [|left; eexists; reflexivity].
  apply Bool.eqb_prop in Ecol. subst is_black. cbn [negb].
  destruct is_pass.
  { right. eexists. split; [reflexivity|]. split; [reflexivity|].
    split; [reflexivity|]. now left. }
  apply ParseCoord_square in Ec.
  destruct (Z.testbit (GetMoves (Player (board st)) (Opponent (board st))) sq) eqn:Eb.
  - rewrite ApplyMove_legal by assumption.
    right. eexists. split; [reflexivity|]. split; [reflexivity|].
    split; [reflexivity|]. right. exists sq. now apply ApplyMove_legal.
  - unfold ApplyMove.
    replace ((0 <=? sq) && (sq <? 64)) with true
      by (symmetry; apply andb_true_iff; split; [apply Z.leb_le|apply Z.ltb_lt]; lia).
    rewrite legality_test, Eb by lia. cbn [negb]. left. eexists. reflexivity.
Qed.

Lemma genmove_replies (evals : list EvalType) (st : GameState) (id : Z)
    (iss : string) :
  (exists msg, genmove evals st id iss = Continue (Err id msg) st)
  \/ (exists payload st',
        genmove evals st id iss = Continue (Ok id payload) st'
        /\ ParseColor (fst (read_token iss)) = Some (stm_is_black st)
        /\ stm_is_black st' = negb (stm_is_black st)
        /\ ((payload = "PASS" /\ st' = ApplyPass st)
            \/ exists mv, legal (board st) mv /\ mv < 64
                          /\ payload = SqToCoord mv
                          /\ ApplyMove st mv = Some (true, st')))
  \/ (genmove evals st id iss = Undefined
      /\ ParseColor (fst (read_token iss)) = Some (stm_is_black st)
      /\ evals <> []
      /\ GetMoves (Player (board st)) (Opponent (board st)) <> 0
      /\ forall mv, legal (board st) mv ->
            move_score evals (board st) mv <= -1000000000).
Proof.
  unfold genmove. destruct (read_token iss) as [color_s iss1]. cbn [fst].
  destruct (ParseColor color_s) as [is_black|]; [|left; eexists; reflexivity].
  destruct evals as [|e evals']; [left; eexists; reflexivity|].
  destruct (Bool.eqb is_black (stm_is_black st)) eqn:Ecol;
    [|left; eexists; reflexivity].
  apply Bool.eqb_prop in Ecol. subst is_black. cbn [negb].
  destruct (GetMoves (Player (board st)) (Opponent (board st)) =? 0) eqn:Em.
  { right; left. eexists _, _. split; [reflexivity|]. split; [reflexivity|].
    split; [reflexivity|]. left. now split. }
  apply Z.eqb_neq in Em.
  rewrite select_loop_64 by apply GetMoves_range.
  destruct (fold_consider_cases (e :: evals') (board st)
              (set_bits (GetMoves (Player (board st)) (Opponent (board st))))
              (-1) (-1000000000))
    as [[Hr Hall]|(l1 & l2 & Hl & _)].
  - right; right. rewrite Hr. split; [reflexivity|]. split; [reflexivity|].
    split; [discriminate|]. split; [exact Em|].
    intros mv Hmv. apply Hall. now apply legal_in_set_bits.
  - destruct (fold_left _ _ _) as [bm bs]. cbn [fst] in Hl.
    assert (Hbm : legal (board st) bm).
    { apply legal_in_set_bits. rewrite Hl. apply in_or_app. right. now left. }
    pose proof (legal_below_64 _ _ Hbm) as H64.
    assert (Hmove : ApplyMove st bm
                    = Some (true,
                        mkState (PlayMove (board st)
                                   (GetFlip bm (Player (board st)) (Opponent (board st))))
                                (negb (stm_is_black st)))).
    { apply ApplyMove_legal; [split; [apply Hbm|exact H64]|apply Hbm]. }
    right; left. rewrite Hmove. eexists _, _. split; [reflexivity|].
    split; [reflexivity|]. split; [reflexivity|].
    right. exists bm. auto.
Qed.

(** C3, amended.  An error reply leaves the game state as it was, and
    every [play] or [genmove] that is not rejected with an error is
    answered with a success after exactly one pass or one accepted move,
    so that the side to move toggles exactly once, provided that the
    selection loop of a [genmove], when the line makes it run, ends on a
    square (some legal move scores above -1000000000). *)
Theorem accepted_moves_toggle_once (evals : list EvalType) (st : GameState)
    (line : string) :
  selects_a_square evals st line -> turn_discipline evals st line.
Proof.
  intros Hsel. split.
  - intros out st' H He. exact (proj1 (errors_keep_state evals st st' line out H) He).
  - intros id verb iss Hreq Hv Hnot.
    rewrite (process_line_request _ _ _ _ _ _ Hreq) in *.
    destruct Hv as [-> | ->]; unfold dispatch in *;
      cbn [String.eqb Ascii.eqb Bool.eqb orb] in *.
    + destruct (play_replies st id iss) as [[msg E]|(st' & E & _ & Ht & Hm)].
      * destruct (Hnot msg E).
      * exists "", st'. auto.
    + destruct (genmove_replies evals st id iss)
        as [[msg E]|[(payload & st' & E & _ & Ht & Hm)|(_ & Hcol & Hev & Hmv & Hall)]].
      * destruct (Hnot msg E).
      * exists payload, st'. split; [exact E|]. split; [exact Ht|].
        destruct Hm as [[_ ->]|(mv & _ & _ & _ & Hmove)]; [now left|].
        right. now exists mv.
      * destruct (Hsel id iss Hreq Hcol Hev Hmv) as (mv & Hl & Hs).
        specialize (Hall mv Hl). lia.
Qed.

(** X18.  What [genmove] answers can be played back, provided that its
    selection loop, when it runs, ends on a square (some legal move scores
    above -1000000000): the line is either rejected with an error, or
    answered with a success whose payload is PASS or the coordinate of a
    legal square, and then a [play] of that payload by the same colour on
    the same state is accepted and leads to the very state [genmove]
    left. *)
Theorem genmove_answer_replays (evals evals2 : list EvalType)
    (st : GameState) (gline : string) (id : Z) (giss : string) :
  request gline id "genmove" giss ->
  selects_a_square evals st gline ->
  (exists msg, process_line evals st gline = Continue (Err id msg) st)
  \/ exists payload st',
       process_line evals st gline = Continue (Ok id payload) st'
       /\ (payload = "PASS"
           \/ exists sq, legal (board st) sq /\ payload = SqToCoord sq)
       /\ forall pline id2 piss color_s r1 r2,
            request pline id2 "play" piss ->
            read_token piss = (color_s, r1) ->
            read_token r1 = (payload, r2) ->
            ParseColor color_s = Some (stm_is_black st) ->
            process_line evals2 st pline = Continue (Ok id2 "") st'.
Proof.
  intros Hreq Hsel.
  rewrite (process_line_request _ _ _ _ _ _ Hreq).
  unfold dispatch. cbn [String.eqb Ascii.eqb Bool.eqb orb].
  destruct (genmove_replies evals st id giss)
    as [[msg E]|[(payload & st' & E & _ & _ & Hm)|(_ & Hcol & Hev & Hmv & Hall)]].
  - left. now exists msg.
  - right. exists payload, st'. split; [exact E|].
    destruct Hm as [[-> ->]|(mv & Hl & H64 & -> & Hmove)].
    + split; [now left|].
      intros pline id2 piss color_s r1 r2 Hp Hc Hm Hcol.
      rewrite (process_line_request _ _ _ _ _ _ Hp).
      unfold dispatch. cbn [String.eqb Ascii.eqb Bool.eqb orb].
      unfold play. rewrite Hc, Hm, Hcol, Bool.eqb_reflx. reflexivity.
    + split; [right; now exists mv|].
      intros pline id2 piss color_s r1 r2 Hp Hc Hm Hcol.
      rewrite (process_line_request _ _ _ _ _ _ Hp).
      unfold dispatch. cbn [String.eqb Ascii.eqb Bool.eqb orb].
      unfold play. rewrite Hc, Hm, Hcol, Bool.eqb_reflx.
      rewrite (SqToCoord_parses mv 0 false) by (split; [apply Hl|exact H64]).
      cbn [negb]. now rewrite Hmove.
  - exfalso. destruct (Hsel id giss Hreq Hcol Hev Hmv) as (mv & Hl & Hs).
    specialize (Hall mv Hl). lia.
Qed.

(** X19.  The turn alternates, provided that the selection loop of a
    [genmove], when it runs, ends on a square (some legal move scores
    above -1000000000): a [play] or [genmove] line is either rejected with
    an error, or answered with a success, and then a [play] by the same
    colour (any spelling of it, any well-formed coordinate or pass) is
    refused with "wrong color to play" and leaves the state reached. *)
Theorem side_cannot_move_twice (evals : list EvalType) (st : GameState)
    (l1 : string) (id1 : Z) (v1 iss1 : string) :
  request l1 id1 v1 iss1 ->
  v1 = "play" \/ v1 = "genmove" ->
  selects_a_square evals st l1 ->
  (exists msg, process_line evals st l1 = Continue (Err id1 msg) st)
  \/ exists payload st1,
       process_line evals st l1 = Continue (Ok id1 payload) st1
       /\ forall l2 id2 iss2 col2 r2 coord2 r3 x,
            request l2 id2 "play" iss2 ->
            read_token iss2 = (col2, r2) ->
            read_token r2 = (coord2, r3) ->
            ParseColor col2 = ParseColor (fst (read_token iss1)) ->
            ParseCoord coord2 0 false = Some x ->
            process_line evals st1 l2
            = Continue (Err id2 "wrong color to play") st1.
Proof.
  intros Hreq Hv Hsel.
  assert (Hnext : forall st1,
             ParseColor (fst (read_token iss1)) = Some (stm_is_black st) ->
             stm_is_black st1 = negb (stm_is_black st) ->
             forall l2 id2 iss2 col2 r2 coord2 r3 x,
               request l2 id2 "play" iss2 ->
               read_token iss2 = (col2, r2) ->
               read_token r2 = (coord2, r3) ->
               ParseColor col2 = ParseColor (fst (read_token iss1)) ->
               ParseCoord coord2 0 false = Some x ->
               process_line evals st1 l2
               = Continue (Err id2 "wrong color to play") st1).
  { intros st1 Hside Hturn l2 id2 iss2 col2 r2 coord2 r3 x Hreq2 Hc Hm Hcol Hsq.
    rewrite Hside in Hcol.
    rewrite (process_line_request _ _ _ _ _ _ Hreq2).
    unfold dispatch. cbn [String.eqb Ascii.eqb Bool.eqb orb].
    unfold play. rewrite Hc, Hm, Hcol, Hsq. destruct x as [sq ps].
    rewrite Hturn. now destruct (stm_is_black st). }
  rewrite (process_line_request _ _ _ _ _ _ Hreq).
  destruct Hv as [-> | ->]; unfold dispatch;
    cbn [String.eqb Ascii.eqb Bool.eqb orb].
  - destruct (play_replies st id1 iss1) as [[msg E]|(st1 & E & Hside & Ht & _)].
    + left. now exists msg.
    + right. exists "", st1. split; [exact E|]. now apply Hnext.
  - destruct (genmove_replies evals st id1 iss1)
      as [[msg E]|[(payload & st1 & E & Hside & Ht & _)|(_ & Hcol & Hev & Hmv & Hall)]].
    + left. now exists msg.
    + right. exists payload, st1. split; [exact E|]. now apply Hnext.
    + exfalso. destruct (Hsel id1 iss1 Hreq Hcol Hev Hmv) as (mv & Hl & Hs).
      specialize (Hall mv Hl). lia.
Qed.

End Moves.

(** X20.  The disc counts are absolute: they do not depend on which side
    the board is stored from (swapping the two bit patterns together with
    the side to move gives the same pair), each is the number of set bits
    of that colour's pattern, and on 64-bit patterns each is in 0..64. *)
Theorem disc_counts_are_absolute (p o : Z) (c : bool) :
  CountDiscsAbs (mkState (mkBoard o p) (negb c))
  = CountDiscsAbs (mkState (mkBoard p o) c)
  /\ CountDiscsAbs (mkState (mkBoard p o) c)
     = (Z.of_nat (length (set_bits (black_discs (mkState (mkBoard p o) c)))),
        Z.of_nat (length (set_bits (white_discs (mkState (mkBoard p o) c)))))
  /\ (0 <= p < 2 ^ 64 -> 0 <= o < 2 ^ 64 ->
      0 <= fst (CountDiscsAbs (mkState (mkBoard p o) c)) <= 64
      /\ 0 <= snd (CountDiscsAbs (mkState (mkBoard p o) c)) <= 64).
Proof.
  split; [now destruct c|]. split.
  - unfold CountDiscsAbs, black_discs, white_discs. cbn [board stm_is_black Player Opponent].
    now rewrite !popcountll_length.
  - intros Hp Ho. unfold CountDiscsAbs. cbn [board stm_is_black Player Opponent fst snd].
    destruct c; split; now apply popcountll_range.
Qed.

(** ** The command line *)

Lemma eval_path_of_cons (a : string) (tl : list string) (d : string) :
  a <> "--eval" -> eval_path_of (a :: tl) d = eval_path_of tl d.
Proof.
  intros Ha. destruct tl as [|v rest]; [reflexivity|].
  cbn [eval_path_of]. now apply String.eqb_neq in Ha as ->.
Qed.

(** X21.  The scan of the arguments: without a "--eval" the path stays the
    default; a final "--eval p" after arguments that hold no "--eval"
    selects p; a final "--eval" with nothing after it is ignored.  So with
    no "--eval" the table is the one of the default file, or of the
    fallback file when that one is empty. *)
Theorem eval_path_selection {EL : EvalLib} (pre : list string) (d p : string) :
  ~ In "--eval" pre ->
  eval_path_of pre d = d
  /\ eval_path_of (pre ++ ["--eval"; p]) d = p
  /\ eval_path_of (pre ++ ["--eval"]) d = d
  /\ startup_evals pre
     = match LoadEvals "sensei-engine/pattern_evaluator.dat" with
       | [] => LoadEvals "pattern_evaluator.dat"
       | e :: evals => e :: evals
       end.
Proof.
  intros Hpre.
  assert (H1 : forall d', eval_path_of pre d' = d').
  { induction pre as [|a pre IH]; intros d'; [reflexivity|].
    rewrite eval_path_of_cons.
    - apply IH. intros H. apply Hpre. now right.
    - intros ->. apply Hpre. now left. }
  split; [apply H1|]. split; [|split].
  - induction pre as [|a pre IH]; [reflexivity|].
    cbn [app]. rewrite eval_path_of_cons.
    + apply IH.
      * intros H. apply Hpre. now right.
      * intros d'. specialize (H1 d'). rewrite eval_path_of_cons in H1; [exact H1|].
        intros ->. apply Hpre. now left.
    + intros ->. apply Hpre. now left.
  - induction pre as [|a pre IH]; [reflexivity|].
    cbn [app]. rewrite eval_path_of_cons.
    + apply IH.
      * intros H. apply Hpre. now right.
      * intros d'. specialize (H1 d'). rewrite eval_path_of_cons in H1; [exact H1|].
        intros ->. apply Hpre. now left.
    + intros ->. apply Hpre. now left.
  - unfold startup_evals. rewrite H1.
    now destruct (LoadEvals "sensei-engine/pattern_evaluator.dat").
Qed.

(** ** The further properties on the reference instances *)

Section MoreExamples.

Import Reference.

Lemma request_clear_board : request "clear_board" (-1) "clear_board" "".
Proof.
  split; [reflexivity|]. exists "clear_board", "clear_board".
  repeat split; reflexivity.
Defined.

Lemma request_play_b_d3 : request "play b d3" (-1) "play" " b d3".
Proof.
  split; [reflexivity|]. exists "play b d3", "play". repeat split; reflexivity.
Defined.

Lemma request_play_b_pass : request "play b pass" (-1) "play" " b pass".
Proof.
  split; [reflexivity|]. exists "play b pass", "play". repeat split; reflexivity.
Defined.

Lemma request_genmove_w : request "genmove w" (-1) "genmove" " w".
Proof.
  split; [reflexivity|]. exists "genmove w", "genmove". repeat split; reflexivity.
Defined.

(** Square 19 is d3. *)
Lemma square_roundtrip_witness :
  lowercase_coordinate (SqToCoord 19)
  /\ ParseCoord (SqToCoord 19) 0 false = Some (19, false).
Proof.
  apply (square_roundtrip 19 0 false). lia.
Defined.

(** "D3" is accepted and comes back as "d3". *)
Lemma format_of_parsed_is_lowercase_witness : SqToCoord 19 = lower "D3".
Proof.
  apply (format_of_parsed_is_lowercase "D3" 0 19 false). reflexivity.
Defined.

(** A space, a tab and a carriage return. *)
Lemma blank_line_is_ignored_witness :
  process_line (BL := Othello) (EL := DiscEval) [0] opening
    (String " " (String (chr 9) (String (chr 13) "")))
  = Continue "" opening.
Proof.
  apply (blank_line_is_ignored (BL := Othello) (EL := DiscEval)). reflexivity.
Defined.

Lemma id_alone_is_ignored_witness :
  process_line (BL := Othello) (EL := DiscEval) [0] opening "  12  "
  = Continue "" opening.
Proof.
  apply (id_alone_is_ignored (BL := Othello) (EL := DiscEval)
           [0] opening "  12  " "12" "  ").
  - reflexivity.
  - reflexivity.
  - reflexivity.
  - vm_compute. discriminate.
  - reflexivity.
Defined.

(** "-5" is not an id. *)
Lemma extracted_id_range_witness :
  (-1 = -1 /\ "-5 quit" = "-5 quit"
   /\ all_of isdigit (fst (read_token "-5 quit"))
      && negb (is_empty (fst (read_token "-5 quit"))) = false)
  \/ (0 <= -1 <= INT_MAX /\ all_of isdigit (fst (read_token "-5 quit")) = true).
Proof.
  apply (extracted_id_range "-5 quit" "-5 quit" (-1)). reflexivity.
Defined.

Lemma id_prefix_is_read_back_witness :
  stoi (to_string 7) = Some 7
  /\ request (to_string 7 ++ " " ++ "clear_board") 7 "clear_board" ""
  /\ process_line (BL := Othello) (EL := DiscEval) [0] opening "clear_board"
     = dispatch (BL := Othello) (EL := DiscEval) [0] opening (-1) "clear_board" ""
  /\ process_line (BL := Othello) (EL := DiscEval) [0] opening
       (to_string 7 ++ " " ++ "clear_board")
     = dispatch (BL := Othello) (EL := DiscEval) [0] opening 7 "clear_board" ""
  /\ carries_id 7
       (process_line (BL := Othello) (EL := DiscEval) [0] opening "clear_board")
       (process_line (BL := Othello) (EL := DiscEval) [0] opening
          (to_string 7 ++ " " ++ "clear_board")).
Proof.
  apply (id_prefix_is_read_back (BL := Othello) (EL := DiscEval)
           [0] opening 7 "clear_board" "clear_board" "").
  - vm_compute. split; discriminate.
  - reflexivity.
  - exact request_clear_board.
Defined.

(** A move, then QUIT, then a line that is never read. *)
Lemma quit_ends_the_session_witness :
  request_loop (BL := Othello) (EL := DiscEval) [0] opening
    (["play b d3"] ++ "QUIT" :: ["genmove w"])
  = (([Ok (-1) ""] ++ [Ok (-1) ""])%list,
     Quit (mkState (mkBoard 68719476736 34762915840) false)).
Proof.
  apply (quit_ends_the_session (BL := Othello) (EL := DiscEval)
           [0] opening (mkState (mkBoard 68719476736 34762915840) false)
           ["play b d3"] ["genmove w"] [Ok (-1) ""] "QUIT" (-1) "quit" "").
  - vm_compute. reflexivity.
  - split; [reflexivity|]. exists "QUIT", "QUIT". repeat split; reflexivity.
  - now left.
Defined.

Lemma clear_board_resets_witness :
  process_line (BL := Othello) (EL := DiscEval) [0] finished "clear_board"
  = Continue (Ok (-1) "") (mkState (StartBoard (BoardLib := Othello)) true)
  /\ snd (request_loop (BL := Othello) (EL := DiscEval) [0] finished
            ["clear_board"; "clear_board"])
     = snd (request_loop (BL := Othello) (EL := DiscEval) [0] finished
              ["clear_board"])
  /\ snd (main (BL := Othello) (EL := DiscEval) [] [])
     = Eof (mkState (StartBoard (BoardLib := Othello)) true).
Proof.
  apply (clear_board_resets (BL := Othello) (EL := DiscEval)
           [0] finished [] "clear_board" (-1) "").
  exact request_clear_board.
Defined.

Lemma unknown_verb_is_reported_witness :
  process_line (BL := Othello) (EL := DiscEval) [0] opening "showboard"
  = Continue (Err (-1) "unknown command") opening.
Proof.
  apply (unknown_verb_is_reported (BL := Othello) (EL := DiscEval)
           [0] opening "showboard" (-1) "showboard" "").
  - split; [reflexivity|]. exists "showboard", "showboard".
    repeat split; reflexivity.
  - cbn [In]. intros H.
    repeat (destruct H as [H|H]; [discriminate H|]). exact H.
Defined.

(** Black passes in the opening position although four moves are legal. *)
Lemma play_pass_is_unchecked_witness :
  process_line (BL := Othello) (EL := DiscEval) [0] opening "play b pass"
  = Continue (Ok (-1) "") (ApplyPass (BL := Othello) opening).
Proof.
  apply (play_pass_is_unchecked (BL := Othello) (EL := DiscEval)
           [0] opening "play b pass" (-1) " b pass" "b" " pass" "pass" "").
  - exact request_play_b_pass.
  - reflexivity.
  - reflexivity.
  - reflexivity.
  - now left.
Defined.

Lemma play_accepts_legal_squares_witness :
  (legal (BL := Othello) (board opening) 19 ->
   process_line (BL := Othello) (EL := DiscEval) [0] opening "play b d3"
   = Continue (Ok (-1) "")
       (mkState (PlayMove (BL := Othello) (board opening)
                   (GetFlip (BoardLib := Othello) 19
                      (Player (board opening)) (Opponent (board opening))))
                (negb (stm_is_black opening))))
  /\ (~ legal (BL := Othello) (board opening) 19 ->
      process_line (BL := Othello) (EL := DiscEval) [0] opening "play b d3"
      = Continue (Err (-1) "illegal move") opening).
Proof.
  apply (play_accepts_legal_squares (BL := Othello) (EL := DiscEval)
           [0] opening "play b d3" (-1) " b d3" "b" " d3" "d3" "" 19).
  - exact request_play_b_d3.
  - reflexivity.
  - reflexivity.
  - reflexivity.
  - reflexivity.
Defined.

Lemma genmove_checks_turn_witness :
  process_line (BL := Othello) (EL := DiscEval) [0] opening "genmove w"
  = Continue (Err (-1) "wrong color to play") opening.
Proof.
  apply (genmove_checks_turn (BL := Othello) (EL := DiscEval)
           [0] opening "genmove w" (-1) " w" "w" "" false).
  - exact request_genmove_w.
  - reflexivity.
  - reflexivity.
  - discriminate.
  - discriminate.
Defined.

(** The four legal moves of the opening position. *)
Lemma loop_runs_once_per_move_witness :
  let rem := GetMoves (BoardLib := Othello) (Player (board opening))
               (Opponent (board opening)) in
  popcountll rem = Z.of_nat (length (set_bits rem))
  /\ popcountll rem <= 64
  /\ forall fuel bm bs,
       select_loop (BL := Othello) (EL := DiscEval) fuel [0] (board opening)
         rem bm bs <> None
       <-> popcountll rem <= Z.of_nat fuel.
Proof.
  apply (loop_runs_once_per_move (BL := Othello) (EL := DiscEval)
           [0] (board opening)).
  apply (GetMoves_range (BoardLib := Othello)).
Defined.

Lemma opening_selects_a_square (line : string) :
  selects_a_square (BL := Othello) (EL := DiscEval) [0] opening line.
Proof.
  intros id iss _ _ _ _. exists 19. split; [exact d3_is_legal|].
  vm_compute. reflexivity.
Defined.

(** C3, as worded, fails on the run that refutes C1: with scores of
    1000000000 the [genmove] of the side to move passes every check and is
    not rejected, the loop ends with [best_move] = -1, and what follows is
    not an accepted move: [ApplyMove] is handed -1, whose result the
    handler does not look at. *)
Lemma unselected_genmove_is_no_move :
  request "genmove b" (-1) "genmove" " b"
  /\ ParseColor "b" = Some (stm_is_black opening)
  /\ startup_evals (EL := SaturatedEval) [] = [0]
  /\ (exists mv, legal (BL := Othello) (board opening) mv)
  /\ (forall msg,
        process_line (BL := Othello) (EL := SaturatedEval) [0] opening "genmove b"
        <> Continue (Err (-1) msg) opening)
  /\ select_loop (BL := Othello) (EL := SaturatedEval) 64 [0] (board opening)
       (GetMoves (BoardLib := Othello) (Player (board opening))
          (Opponent (board opening))) (-1) (-1000000000)
     = Some (-1, -1000000000)
  /\ ApplyMove (BL := Othello) opening (-1) = None
  /\ ~ turn_discipline (BL := Othello) (EL := SaturatedEval)
        [0] opening "genmove b".
Proof.
  assert (E : process_line (BL := Othello) (EL := SaturatedEval)
                [0] opening "genmove b" = Undefined) by (vm_compute; reflexivity).
  split; [exact request_genmove_b|]. split; [reflexivity|].
  split; [reflexivity|]. split; [exists 19; exact d3_is_legal|].
  split; [intros msg; rewrite E; discriminate|].
  split; [vm_compute; reflexivity|]. split; [reflexivity|].
  intros [_ H].
  destruct (H (-1) "genmove" " b" request_genmove_b (or_intror eq_refl))
    as (payload & st' & H' & _).
  - intros msg. rewrite E. discriminate.
  - rewrite E in H'. discriminate H'.
Qed.

(** [genmove b] in the opening position with the disc-difference
    evaluator. *)
Lemma accepted_moves_toggle_once_witness :
  turn_discipline (BL := Othello) (EL := DiscEval) [0] opening "genmove b".
Proof.
  apply (accepted_moves_toggle_once (BL := Othello) (EL := DiscEval)
           [0] opening "genmove b").
  exact (opening_selects_a_square "genmove b").
Defined.

(** [genmove b] in the opening position answers d3; [play b d3] gives the
    same state. *)
Lemma genmove_answer_replays_witness :
  (exists msg,
     process_line (BL := Othello) (EL := DiscEval) [0] opening "genmove b"
     = Continue (Err (-1) msg) opening)
  \/ exists payload st',
       process_line (BL := Othello) (EL := DiscEval) [0] opening "genmove b"
       = Continue (Ok (-1) payload) st'
       /\ (payload = "PASS"
           \/ exists sq, legal (BL := Othello) (board opening) sq
                         /\ payload = SqToCoord sq)
       /\ forall pline id2 piss color_s r1 r2,
            request pline id2 "play" piss ->
            read_token piss = (color_s, r1) ->
            read_token r1 = (payload, r2) ->
            ParseColor color_s = Some (stm_is_black opening) ->
            process_line (BL := Othello) (EL := DiscEval) [0] opening pline
            = Continue (Ok id2 "") st'.
Proof.
  apply (genmove_answer_replays (BL := Othello) (EL := DiscEval)
           [0] [0] opening "genmove b" (-1) " b").
  - exact request_genmove_b.
  - exact (opening_selects_a_square "genmove b").
Defined.

(** After [play b d3], black cannot play again. *)
Lemma side_cannot_move_twice_witness :
  (exists msg,
     process_line (BL := Othello) (EL := DiscEval) [0] opening "play b d3"
     = Continue (Err (-1) msg) opening)
  \/ exists payload st1,
       process_line (BL := Othello) (EL := DiscEval) [0] opening "play b d3"
       = Continue (Ok (-1) payload) st1
       /\ forall l2 id2 iss2 col2 r2 coord2 r3 x,
            request l2 id2 "play" iss2 ->
            read_token iss2 = (col2, r2) ->
            read_token r2 = (coord2, r3) ->
            ParseColor col2 = ParseColor (fst (read_token " b d3")) ->
            ParseCoord coord2 0 false = Some x ->
            process_line (BL := Othello) (EL := DiscEval) [0] st1 l2
            = Continue (Err id2 "wrong color to play") st1.
Proof.
  apply (side_cannot_move_twice (BL := Othello) (EL := DiscEval)
           [0] opening "play b d3" (-1) "play" " b d3").
  - exact request_play_b_d3.
  - now left.
  - exact (opening_selects_a_square "play b d3").
Defined.

Lemma eval_path_selection_witness :
  eval_path_of ["--verbose"] "default.dat" = "default.dat"
  /\ eval_path_of (["--verbose"] ++ ["--eval"; "my.dat"]) "default.dat" = "my.dat"
  /\ eval_path_of (["--verbose"] ++ ["--eval"]) "default.dat" = "default.dat"
  /\ startup_evals (EL := NoEval) ["--verbose"]
     = match LoadEvals (EvalLib := NoEval) "sensei-engine/pattern_evaluator.dat" with
       | [] => LoadEvals (EvalLib := NoEval) "pattern_evaluator.dat"
       | e :: evals => e :: evals
       end.
Proof.
  apply (eval_path_selection (EL := NoEval) ["--verbose"] "default.dat" "my.dat").
  cbn [In]. intros [H|H]; [discriminate H|exact H].
Defined.

End MoreExamples.
